(** * Tegrastats power sampler: buffer, idle calibration, energy integration

    A shallow embedding of [tegrastats_sampler.py] (class
    [TegrastatsMonitor]) and the properties of its sample buffer, its
    power-line parser, its idle calibration and its trapezoidal energy
    integrator.

    Conventions of the embedding.
    - A Python [float] is an exact rational [Q]: the arithmetic of the
      source is kept operation by operation, without rounding, infinities
      or NaN.  Python's [==] on numbers is [Qeq] (written [==]).
    - A Python call either returns or raises and may print: it is a value
      of [Py A], a result together with the trace of effects it performed.
    - The monitor object is a record that the methods take and, when they
      assign to its fields, give back.
    - The reader thread and the wall clock are the environment: what they
      produce during a call is an explicit argument of the call. *)

From Stdlib Require Import String Ascii QArith Qminmax Lqa ZArith List Sorted Bool Lia.
Import ListNotations.

Open Scope Q_scope.

(** ** Python calls: results, exceptions and the effect trace *)

Module Py.

Inductive exn : Type :=
| RuntimeError (msg : string)
| ValueError (msg : string)
| IndexError.

(** Handles of the subprocess and of the reader thread. *)
Record Popen : Type := { pid : nat }.
Record Thread : Type := { ident : nat }.

(** What a call does to the outside world, in order: the lines it
    prints (one constructor per [print] of the source, carrying the
    values the f-string formats) and the calls on the subprocess and
    the thread. *)
Inductive event : Type :=
| PrintWarningOnlySamples (n : nat)
| PrintMeasuringIdle (duration_sec : Q)
| PrintIdlePower (avg_power : Q) (n : nat)
| PrintMonitorStopped
| Terminate (p : Popen)
| Wait (p : Popen) (timeout : Q)
| Kill (p : Popen)
| Join (t : Thread) (timeout : Q)
| Sleep (sec : Q).

Inductive result (A : Type) : Type :=
| Return (a : A)
| Raise (e : exn).
Arguments Return {A} a.
Arguments Raise {A} e.

Definition t (A : Type) : Type := (result A * list event)%type.

Definition ret {A} (a : A) : t A := (Return a, []).
Definition raise {A} (e : exn) : t A := (Raise e, []).
Definition emit (ev : event) : t unit := (Return tt, [ev]).

Definition bind {A B} (m : t A) (k : A -> t B) : t B :=
  match m with
  | (Return a, out) => let (r, out') := k a in (r, out ++ out')
  | (Raise e, out) => (Raise e, out)
  end.

(** [for x in xs: acc = body x acc] *)
Fixpoint for_each {X A} (xs : list X) (body : X -> A -> t A) (acc : A) : t A :=
  match xs with
  | [] => ret acc
  | x :: xs' => bind (body x acc) (fun acc' => for_each xs' body acc')
  end.

(** [range(n)] *)
Definition range (n : nat) : list nat := seq 0 n.

(** [xs[i]] for a non-negative index. *)
Definition index {A} (xs : list A) (i : nat) : t A :=
  match nth_error xs i with
  | Some x => ret x
  | None => raise IndexError
  end.

(** The built-in [max(a, b)]: the first argument unless the second is
    strictly greater. *)
Definition max (a b : Q) : Q := Qmax a b.

Definition value {A} (m : t A) : result A := fst m.
Definition trace {A} (m : t A) : list event := snd m.

End Py.

Notation "x <- m ;; k" := (Py.bind m (fun x => k))
  (at level 61, m at next level, right associativity).
Notation "m ;;; k" := (Py.bind m (fun _ => k))
  (at level 61, right associativity).

(** ** The monitor object *)

(** A sample is the tuple [(timestamp, power_mw)]. *)
Definition Sample : Type := (Q * Q)%type.

(** [deque(maxlen=100000)] *)
Definition maxlen : nat := Z.to_nat 100000.

Record TegrastatsMonitor : Type := {
  interval_ms : Z;
  process : option Py.Popen;
  thread : option Py.Thread;
  running : bool;
  samples : list Sample
}.

Definition set_samples (self : TegrastatsMonitor) (d : list Sample) : TegrastatsMonitor :=
  {| interval_ms := interval_ms self; process := process self;
     thread := thread self; running := running self; samples := d |}.

(** [__init__] *)
Definition init (interval : Z) : TegrastatsMonitor :=
  {| interval_ms := interval; process := None; thread := None;
     running := false; samples := [] |}.

(** ** The bounded buffer *)

(** [deque.append] of a deque bounded by [cap]: the item goes to the
    right end and, when the bound is then exceeded, the leftmost item is
    dropped. *)
Definition deque_append {A} (cap : nat) (d : list A) (x : A) : list A :=
  let d' := d ++ [x] in
  if (cap <? length d')%nat then tl d' else d'.

(** [self.samples.append((timestamp, power_mw))] *)
Definition append_sample (self : TegrastatsMonitor) (s : Sample) : TegrastatsMonitor :=
  set_samples self (deque_append maxlen (samples self) s).

(** [clear_samples] *)
Definition clear_samples (self : TegrastatsMonitor) : TegrastatsMonitor :=
  set_samples self [].

(** [get_samples]: a snapshot of the buffer, filtered by each bound that
    is given. *)
Definition get_samples (self : TegrastatsMonitor)
    (t_start t_end : option Q) : list Sample :=
  let samples0 := samples self in
  let samples1 :=
    match t_start with
    | Some t_start => filter (fun s => Qle_bool t_start (fst s)) samples0
    | None => samples0
    end in
  match t_end with
  | Some t_end => filter (fun s => Qle_bool (fst s) t_end) samples1
  | None => samples1
  end.

(** ** Energy integration *)

(** The body of the integration loop, for index [i]. *)
Definition integrate_step (samples : list Sample) (idle_mw : Q)
    (i : nat) (energy_j : Q) : Py.t Q :=
  s1 <- Py.index samples i ;;
  s2 <- Py.index samples (i + 1) ;;
  let '(t1, p1) := s1 in
  let '(t2, p2) := s2 in
  let p1_active := Py.max 0 (p1 - idle_mw) in
  let p2_active := Py.max 0 (p2 - idle_mw) in
  let p1_w := p1_active / 1000 in
  let p2_w := p2_active / 1000 in
  let dt := t2 - t1 in
  let avg_power := (p1_w + p2_w) / 2 in
  Py.ret (energy_j + avg_power * dt).

(** [integrate_energy] *)
Definition integrate_energy (self : TegrastatsMonitor)
    (t_start t_end idle_mw : Q) : Py.t Q :=
  let samples := get_samples self (Some t_start) (Some t_end) in
  if (length samples <? 2)%nat then
    Py.emit (Py.PrintWarningOnlySamples (length samples)) ;;;
    if (length samples =? 1)%nat then
      s0 <- Py.index samples 0 ;;
      let duration := t_end - t_start in
      let power_w := (snd s0 - idle_mw) / 1000 in
      Py.ret (Py.max 0 (power_w * duration))
    else Py.ret 0
  else
    Py.for_each (Py.range (length samples - 1))
      (integrate_step samples idle_mw) 0.

(** A monitor whose buffer holds the given samples. *)
Definition with_samples (d : list Sample) : TegrastatsMonitor :=
  set_samples (init 100) d.

(** ** Idle calibration *)

(** What the environment does during one call of [measure_idle] on a
    running monitor: the two readings of [time.time()] around the sleep,
    and the samples the reader thread appends, in order, between the
    clearing of the buffer and the snapshot taken by [get_samples] or,
    when [time.sleep] refuses a negative duration, until the call is
    left (the second clock reading is then not taken). *)
Record IdleWindow : Type := {
  time_start : Q;
  time_end : Q;
  appended : list Sample
}.

(** [sum(powers)]: from 0, left to right. *)
Definition py_sum (xs : list Q) : Q := fold_left Qplus xs 0.

(** [len(xs)] as a number. *)
Definition py_len {A} (xs : list A) : Q := inject_Z (Z.of_nat (length xs)).

(** [measure_idle]: the monitor after the call, and the outcome. *)
Definition measure_idle (self : TegrastatsMonitor) (duration_sec : Q)
    (env : IdleWindow) : TegrastatsMonitor * Py.t Q :=
  if negb (running self) then
    (self, Py.raise (Py.RuntimeError "Monitor not started. Call start() first."))
  else
    let self := clear_samples self in
    let t_start := time_start env in
    let self := fold_left append_sample (appended env) self in
    (self,
     Py.emit (Py.PrintMeasuringIdle duration_sec) ;;;
     if Qle_bool 0 duration_sec then
       Py.emit (Py.Sleep duration_sec) ;;;
       let t_end := time_end env in
       let samples := get_samples self (Some t_start) (Some t_end) in
       match samples with
       | [] =>
           Py.raise
             (Py.RuntimeError
                "No power samples collected. Check tegrastats output.")
       | _ :: _ =>
           let powers := map snd samples in
           let avg_power := py_sum powers / py_len powers in
           Py.emit (Py.PrintIdlePower avg_power (length samples)) ;;;
           Py.ret avg_power
       end
     else
       Py.raise (Py.ValueError "sleep length must be non-negative")).

(** ** Stopping *)

Definition set_running (self : TegrastatsMonitor) (b : bool) : TegrastatsMonitor :=
  {| interval_ms := interval_ms self; process := process self;
     thread := thread self; running := b; samples := samples self |}.

Definition set_process (self : TegrastatsMonitor) (p : option Py.Popen) : TegrastatsMonitor :=
  {| interval_ms := interval_ms self; process := p;
     thread := thread self; running := running self; samples := samples self |}.

Definition set_thread (self : TegrastatsMonitor) (t : option Py.Thread) : TegrastatsMonitor :=
  {| interval_ms := interval_ms self; process := process self;
     thread := t; running := running self; samples := samples self |}.

(** What the environment does during one call of [stop] on a running
    monitor: its answer to [process.wait(timeout=2)], and the samples the
    reader thread still appends while the call runs (the thread tests the
    running flag only at the top of its loop). *)
Record StopEnv : Type := {
  timeout_expired : bool;
  late_samples : list Sample
}.

(** [stop]: the monitor after the call, and the outcome. *)
Definition stop (self : TegrastatsMonitor) (env : StopEnv)
    : TegrastatsMonitor * Py.t unit :=
  if negb (running self) then (self, Py.ret tt)
  else
    let self := set_running self false in
    let '(self, on_process) :=
      match process self with
      | Some p =>
          (set_process self None,
           Py.emit (Py.Terminate p) ;;;
           Py.emit (Py.Wait p 2) ;;;
           if timeout_expired env then Py.emit (Py.Kill p) else Py.ret tt)
      | None => (self, Py.ret tt)
      end in
    let '(self, on_thread) :=
      match thread self with
      | Some t => (set_thread self None, Py.emit (Py.Join t 2))
      | None => (self, Py.ret tt)
      end in
    let self := fold_left append_sample (late_samples env) self in
    (self, on_process ;;; on_thread ;;; Py.emit Py.PrintMonitorStopped).

(** ** The power-line parser *)

(** A line is a sequence of characters with code points below 256. *)
Definition text : Type := list ascii.

Definition lit (s : string) : text := list_ascii_of_string s.

(** [\d] on these characters: the ten decimal digits. *)
Definition is_digit (c : ascii) : bool :=
  let n := N_of_ascii c in ((48 <=? n) && (n <=? 57))%N.

(** [\s] on these characters: tab to carriage return, the four
    separators, the space, NEL and the no-break space. *)
Definition is_space (c : ascii) : bool :=
  let n := N_of_ascii c in
  (((9 <=? n) && (n <=? 13)) || ((28 <=? n) && (n <=? 32))
   || (n =? 133) || (n =? 160))%N.

(** A literal at the head of the text: what follows it. *)
Fixpoint re_literal (p s : text) : option text :=
  match p, s with
  | [], _ => Some s
  | c :: p', d :: s' => if Ascii.eqb c d then re_literal p' s' else None
  | _ :: _, [] => None
  end.

(** The longest run of characters of a class at the head of the text,
    and what follows it. *)
Fixpoint re_span (f : ascii -> bool) (s : text) : text * text :=
  match s with
  | c :: s' =>
      if f c then let (r, rest) := re_span f s' in (c :: r, rest)
      else ([], s)
  | [] => ([], [])
  end.

(** [class+] at the head of the text. *)
Definition re_plus (f : ascii -> bool) (s : text) : option (text * text) :=
  match re_span f s with
  | ([], _) => None
  | (r, rest) => Some (r, rest)
  end.

(** [name\s+(\d+)/(\d+)] at the head of the text: the two groups. *)
Definition re_match_field (name : text) (s : text) : option (text * text) :=
  match re_literal name s with
  | None => None
  | Some s1 =>
    match re_plus is_space s1 with
    | None => None
    | Some (_, s2) =>
      match re_plus is_digit s2 with
      | None => None
      | Some (g1, s3) =>
        match re_literal (lit "/") s3 with
        | None => None
        | Some s4 =>
          match re_plus is_digit s4 with
          | None => None
          | Some (g2, _) => Some (g1, g2)
          end
        end
      end
    end
  end.

(** [re.search]: the match at the leftmost position that has one. *)
Fixpoint re_search_field (name : text) (s : text) : option (text * text) :=
  match re_match_field name s with
  | Some m => Some m
  | None =>
      match s with
      | [] => None
      | _ :: s' => re_search_field name s'
      end
  end.

Definition digit_value (c : ascii) : Z := Z.of_N (N_of_ascii c) - 48.

(** [float(g)] for a run of decimal digits [g]: its decimal value, which
    is what [float] returns as long as the value is below 2^53 (every run
    of up to 15 digits); beyond, [float] rounds. *)
Definition float_of_digits (g : text) : Q :=
  inject_Z (fold_left (fun acc c => 10 * acc + digit_value c)%Z g 0%Z).

(** [_parse_power] *)
Definition _parse_power (line : text) : option Q :=
  match re_search_field (lit "VDD_IN") line with
  | Some (g1, _) => Some (float_of_digits g1)
  | None =>
      match re_search_field (lit "POM_5V_IN") line with
      | Some (g1, _) => Some (float_of_digits g1)
      | None => None
      end
  end.

(** One line of the reader thread, decoded and stripped: a parsed line
    is stamped and appended, any other line leaves the buffer as it
    is. *)
Definition reader_step (self : TegrastatsMonitor) (timestamp : Q)
    (line : text) : TegrastatsMonitor :=
  match _parse_power line with
  | Some power_mw => append_sample self (timestamp, power_mw)
  | None => self
  end.

(** ** The integral in the words of the specification *)

(** Net power in watts at one endpoint: clamp, then convert. *)
Definition active_w (idle_mw p : Q) : Q := Qmax 0 (p - idle_mw) / 1000.

(** Area of the trapezoid between two consecutive samples. *)
Definition trapezoid (idle_mw : Q) (s1 s2 : Sample) : Q :=
  ((active_w idle_mw (snd s1) + active_w idle_mw (snd s2)) / 2)
  * (fst s2 - fst s1).

(** Sum of the trapezoids over the consecutive pairs of a sequence. *)
Fixpoint trapezoid_sum (idle_mw : Q) (l : list Sample) : Q :=
  match l with
  | s1 :: ((s2 :: _) as l') => trapezoid idle_mw s1 s2 + trapezoid_sum idle_mw l'
  | _ => 0
  end.

(** The call returns, with a value equal to [v] as a number. *)
Definition returns (m : Py.t Q) (v : Q) : Prop :=
  match Py.value m with
  | Py.Return e => e == v
  | Py.Raise _ => False
  end.

(** The window test of [get_samples]. *)
Definition in_window (t_start t_end : Q) (s : Sample) : Prop :=
  t_start <= fst s /\ fst s <= t_end.

(** The text does not go on with a character of the class [f]. *)
Definition stops (f : ascii -> bool) (s : text) : Prop :=
  match s with
  | [] => True
  | c :: _ => f c = false
  end.

(** The text begins with a reading of the field [name]: the name, one
    or more blanks, the digits [cur], a slash, the digits [avg]. *)
Definition reading (name cur avg s : text) : Prop :=
  exists ws rest,
    s = name ++ ws ++ cur ++ lit "/" ++ avg ++ rest
    /\ ws <> [] /\ forallb is_space ws = true
    /\ cur <> [] /\ forallb is_digit cur = true
    /\ avg <> [] /\ forallb is_digit avg = true.

(** No position of the line begins with a reading of [name]. *)
Definition no_reading (name line : text) : Prop :=
  forall pre s cur avg, line = pre ++ s -> ~ reading name cur avg s.

(** [cur] is the current member of the leftmost reading of [name] in the
    line. *)
Definition first_reading (name line cur : text) : Prop :=
  exists pre s avg,
    line = pre ++ s /\ reading name cur avg s
    /\ forall pre' s' cur' avg',
         line = pre' ++ s' -> (length pre' < length pre)%nat ->
         ~ reading name cur' avg' s'.

(** [n] samples of 1000 mW at one-second steps from time [t]. *)
Fixpoint steady_samples (n : nat) (t : Z) : list Sample :=
  match n with
  | O => []
  | S n' => (inject_Z t, 1000) :: steady_samples n' (t + 1)
  end.

(** The [n] most recent items of a sequence, in their order. *)
Definition lastn {A} (n : nat) (l : list A) : list A :=
  skipn (length l - n) l.

(** The samples of a calibration window: what the buffer retains of the
    samples appended since it was cleared, restricted to the timestamps
    between the two clock readings. *)
Definition calibration_samples (env : IdleWindow) : list Sample :=
  filter (fun s => Qle_bool (time_start env) (fst s)
                   && Qle_bool (fst s) (time_end env))
         (lastn maxlen (appended env)).


(** The call raises. *)
Definition raises {A} (m : Py.t A) : Prop :=
  exists e, Py.value m = Py.Raise e.

(** Timestamps never decrease along the sequence. *)
Definition time_ordered (l : list Sample) : Prop :=
  Sorted (fun a b => fst a <= fst b) l.

(** The samples of a sequence that lie in the window, in their order. *)
Definition window_samples (t_start t_end : Q) (l : list Sample) : list Sample :=
  filter (fun s => Qle_bool t_start (fst s) && Qle_bool (fst s) t_end) l.

(** ** Effects of the remaining operations *)

Module Io.

(** The effects of [start], of the reader thread and of the benchmark
    driver: those of [Py.event] and the further prints and calls of these
    functions. *)
Inductive event : Type :=
| Core (e : Py.event)
| PrintAlreadyRunning
| Popen (interval_ms : Z)
| ThreadStart (t : Py.Thread)
| PrintStarted (interval_ms : Z)
| PrintErrorReading (msg : string)
| PrintTask (level : string) (question_id : Z) (category : string)
| PrintMetrics (latency_ms : Q) (prompt_tokens completion_tokens : Z)
    (energy_joule : Q).

Definition t (A : Type) : Type := (Py.result A * list event)%type.

Definition ret {A} (a : A) : t A := (Py.Return a, []).
Definition raise {A} (e : Py.exn) : t A := (Py.Raise e, []).
Definition emit (ev : event) : t unit := (Py.Return tt, [ev]).

Definition bind {A B} (m : t A) (k : A -> t B) : t B :=
  match m with
  | (Py.Return a, out) => let (r, out') := k a in (r, out ++ out')
  | (Py.Raise e, out) => (Py.Raise e, out)
  end.

(** A call of the first kind seen as one of this kind. *)
Definition lift {A} (m : Py.t A) : t A := (fst m, map Core (snd m)).

Definition value {A} (m : t A) : Py.result A := fst m.
Definition trace {A} (m : t A) : list event := snd m.

(** The call raises. *)
Definition raises {A} (m : t A) : Prop := exists e, value m = Py.Raise e.

End Io.

(** ** Starting *)

(** The outcome of [subprocess.Popen]: the handle of the subprocess,
    [FileNotFoundError], or another exception with its text. *)
Inductive popen_outcome : Type :=
| Spawned (p : Py.Popen)
| FileNotFound
| PopenFailed (msg : string).

(** An exception as the [except] clauses of [start] tell it apart:
    [FileNotFoundError], or another exception with its text. *)
Inductive caught : Type :=
| NotFound
| Other (msg : string).

(** What [start] raises in its place. *)
Definition start_error (c : caught) : Py.exn :=
  match c with
  | NotFound =>
      Py.RuntimeError "tegrastats not found. Are you running on a Jetson device?"
  | Other msg => Py.RuntimeError ("Failed to start tegrastats: " ++ msg)
  end.

(** How far [start] gets once the subprocess is spawned: to its end, or
    to an exception raised by the start of the reader thread, by the
    sleep or by the last print. *)
Inductive start_progress : Type :=
| Completed
| ThreadStartFailed (c : caught)
| SleepFailed (c : caught)
| PrintFailed (c : caught).

(** What the environment does during one call of [start] on a monitor
    that is not running: the outcome of [Popen], the reader thread that
    is created, how far the call gets after the spawn, and the samples
    the reader thread, once started, appends until the call is left. *)
Record StartEnv : Type := {
  popen : popen_outcome;
  reader : Py.Thread;
  progress : start_progress;
  first_samples : list Sample
}.

(** [start]: the monitor after the call, and the outcome. *)
Definition start (self : TegrastatsMonitor) (env : StartEnv)
    : TegrastatsMonitor * Io.t unit :=
  if running self then (self, Io.emit Io.PrintAlreadyRunning)
  else
    match popen env with
    | Spawned p =>
        let self := set_process self (Some p) in
        let self := set_running self true in
        let self := set_thread self (Some (reader env)) in
        match progress env with
        | ThreadStartFailed c =>
            (self,
             Io.bind (Io.emit (Io.Popen (interval_ms self))) (fun _ =>
             Io.raise (start_error c)))
        | SleepFailed c =>
            let self := fold_left append_sample (first_samples env) self in
            (self,
             Io.bind (Io.emit (Io.Popen (interval_ms self))) (fun _ =>
             Io.bind (Io.emit (Io.ThreadStart (reader env))) (fun _ =>
             Io.raise (start_error c))))
        | PrintFailed c =>
            let self := fold_left append_sample (first_samples env) self in
            (self,
             Io.bind (Io.emit (Io.Popen (interval_ms self))) (fun _ =>
             Io.bind (Io.emit (Io.ThreadStart (reader env))) (fun _ =>
             Io.bind (Io.emit (Io.Core (Py.Sleep (1 # 2)))) (fun _ =>
             Io.raise (start_error c)))))
        | Completed =>
            let self := fold_left append_sample (first_samples env) self in
            (self,
             Io.bind (Io.emit (Io.Popen (interval_ms self))) (fun _ =>
             Io.bind (Io.emit (Io.ThreadStart (reader env))) (fun _ =>
             Io.bind (Io.emit (Io.Core (Py.Sleep (1 # 2)))) (fun _ =>
             Io.emit (Io.PrintStarted (interval_ms self))))))
        end
    | FileNotFound =>
        (self,
         Io.bind (Io.emit (Io.Popen (interval_ms self))) (fun _ =>
         Io.raise (start_error NotFound)))
    | PopenFailed msg =>
        (self,
         Io.bind (Io.emit (Io.Popen (interval_ms self))) (fun _ =>
         Io.raise (start_error (Other msg))))
    end.


(** ** The reader thread *)

(** [str.lstrip()], [str.rstrip()] and [str.strip()] on the characters
    of [text]. *)
Fixpoint lstrip (s : text) : text :=
  match s with
  | c :: s' => if is_space c then lstrip s' else s
  | [] => []
  end.

Definition rstrip (s : text) : text := rev (lstrip (rev s)).

Definition strip (s : text) : text := rstrip (lstrip s).

(** What one [readline()] and the decoding of its result give: a line,
    the end of the stream (no bytes), or an exception with its text. *)
Inductive read : Type :=
| ReadLine (line : text)
| ReadEof
| ReadError (msg : string).

(** The reader thread is back in [readline()], or has left its loop. *)
Inductive reader_state : Type :=
| Reading
| Exited.

(** [_reader_thread] on the reads the stream delivers, each with the
    clock reading taken if its line parses, while no other thread changes
    the running flag: the monitor afterwards, where the thread is, and
    what it printed. *)
Fixpoint _reader_thread (self : TegrastatsMonitor) (reads : list (read * Q))
    : TegrastatsMonitor * reader_state * list Io.event :=
  if negb (running self) then (self, Exited, [])
  else
    match reads with
    | [] => (self, Reading, [])
    | (ReadEof, _) :: _ => (self, Exited, [])
    | (ReadError msg, _) :: _ =>
        (self, Exited,
         if running self then [Io.PrintErrorReading msg] else [])
    | (ReadLine line, timestamp) :: reads' =>
        let line := strip line in
        match _parse_power line with
        | Some power_mw =>
            _reader_thread (append_sample self (timestamp, power_mw)) reads'
        | None => _reader_thread self reads'
        end
    end.

(** The read is a line. *)
Definition is_line (r : read * Q) : bool :=
  match fst r with
  | ReadLine _ => true
  | _ => false
  end.

(** The samples that a sequence of reads holds: one for each line that
    parses, up to the first read that is no line. *)
Fixpoint readings (reads : list (read * Q)) : list Sample :=
  match reads with
  | (ReadLine line, timestamp) :: reads' =>
      match _parse_power line with
      | Some power_mw => (timestamp, power_mw) :: readings reads'
      | None => readings reads'
      end
  | _ => []
  end.

(** ** The benchmark driver: one task *)

Module PromptTask.
Record t : Type := {
  question_id : Z;
  category : string;
  topic : string;
  level : string;
  prompt_text : string
}.
End PromptTask.

Module InferenceResult.
Record t : Type := {
  question_id : Z;
  model_id : string;
  category : string;
  level : string;
  prompt_tokens : Z;
  completion_tokens : Z;
  latency_ms : Q;
  energy_joule : Q;
  output_text : string
}.
End InferenceResult.

(** What the environment does during one call of [run_single_task]: the
    two readings of [time.time()] around the inference, the samples the
    reader thread appends between the clearing of the buffer and the
    snapshot taken by [integrate_energy], and what [run_inference] gives:
    output text, prompt tokens and completion tokens, or an exception. *)
Record TaskRun : Type := {
  run_start : Q;
  run_end : Q;
  run_appended : list Sample;
  completion : Py.result (string * Z * Z)
}.

(** [run_single_task]: the monitor after the call, and the outcome. *)
Definition run_single_task (model_id : string) (task : PromptTask.t)
    (monitor : TegrastatsMonitor) (idle_power : Q) (env : TaskRun)
    : TegrastatsMonitor * Io.t InferenceResult.t :=
  let monitor := clear_samples monitor in
  let t_start := run_start env in
  let monitor := fold_left append_sample (run_appended env) monitor in
  let t_end := run_end env in
  (monitor,
   Io.bind (Io.emit (Io.PrintTask (PromptTask.level task)
                       (PromptTask.question_id task)
                       (PromptTask.category task))) (fun _ =>
   Io.bind (Io.emit (Io.Core (Py.Sleep (1 # 10)))) (fun _ =>
   Io.bind (completion env, []) (fun '(output_text, prompt_tokens, completion_tokens) =>
   let latency_ms := (t_end - t_start) * 1000 in
   Io.bind (Io.lift (integrate_energy monitor t_start t_end idle_power))
     (fun energy_joule =>
   Io.bind (Io.emit (Io.PrintMetrics latency_ms prompt_tokens
                       completion_tokens energy_joule)) (fun _ =>
   Io.ret
     {| InferenceResult.question_id := PromptTask.question_id task;
        InferenceResult.model_id := model_id;
        InferenceResult.category := PromptTask.category task;
        InferenceResult.level := PromptTask.level task;
        InferenceResult.prompt_tokens := prompt_tokens;
        InferenceResult.completion_tokens := completion_tokens;
        InferenceResult.latency_ms := latency_ms;
        InferenceResult.energy_joule := energy_joule;
        InferenceResult.output_text := output_text |})))))).

(** * Properties *)

(** ** The query *)

Lemma get_samples_filter self t_start t_end :
  get_samples self (Some t_start) (Some t_end)
  = filter (fun s => Qle_bool t_start (fst s) && Qle_bool (fst s) t_end)
      (samples self).
Proof.
  unfold get_samples. induction (samples self) as [|s l IH]; simpl; auto.
  destruct (Qle_bool t_start (fst s)); simpl; rewrite IH; reflexivity.
Qed.

Lemma get_samples_in_window self t_start t_end s :
  In s (get_samples self (Some t_start) (Some t_end))
  <-> In s (samples self) /\ in_window t_start t_end s.
Proof.
  rewrite get_samples_filter, filter_In, andb_true_iff, !Qle_bool_iff.
  reflexivity.
Qed.

Lemma get_samples_all self t_start t_end :
  Forall (in_window t_start t_end) (samples self) ->
  get_samples self (Some t_start) (Some t_end) = samples self.
Proof.
  rewrite get_samples_filter. induction 1 as [|s l [H1 H2] _ IH]; simpl; auto.
  apply Qle_bool_iff in H1, H2. rewrite H1, H2, IH. reflexivity.
Qed.

(** An inverted window selects nothing. *)
Lemma get_samples_inverted self t_start t_end :
  t_end < t_start -> get_samples self (Some t_start) (Some t_end) = [].
Proof.
  intros Hlt. destruct (get_samples self (Some t_start) (Some t_end)) eqn:E; auto.
  assert (Hin : In s (get_samples self (Some t_start) (Some t_end)))
    by (rewrite E; left; reflexivity).
  apply get_samples_in_window in Hin. destruct Hin as [_ [H1 H2]]. lra.
Qed.

(** ** The integration loop *)

Lemma skipn_cons_nth {A} (l : list A) : forall k x r,
  skipn k l = x :: r -> nth_error l k = Some x /\ skipn (S k) l = r.
Proof.
  induction l as [|a l IH]; intros k x r H.
  - destruct k; discriminate.
  - destruct k as [|k]; simpl in H.
    + inversion H; subst. split; reflexivity.
    + apply IH in H. exact H.
Qed.

(** From any accumulator, the loop over the remaining indices adds the
    trapezoids of the remaining samples, prints nothing and does not
    raise. *)
Lemma integrate_loop l idle_mw : forall rest k acc,
  skipn k l = rest -> (1 <= length rest)%nat ->
  exists e,
    Py.for_each (seq k (length rest - 1)) (integrate_step l idle_mw) acc
    = (Py.Return e, [])
    /\ e == acc + trapezoid_sum idle_mw rest.
Proof.
  induction rest as [|s1 rest IH]; intros k acc Hk Hlen; simpl in Hlen; [lia|].
  destruct rest as [|s2 rest].
  - simpl. exists acc. split; [reflexivity|]. lra.
  - destruct (skipn_cons_nth _ _ _ _ Hk) as [Hn1 Hk1].
    destruct (skipn_cons_nth _ _ _ _ Hk1) as [Hn2 _].
    replace (length (s1 :: s2 :: rest) - 1)%nat with (S (length rest))
      by (simpl; lia).
    destruct (IH (S k) (acc + trapezoid idle_mw s1 s2) Hk1) as (e & He & Heq);
      [simpl; lia|].
    replace (length (s2 :: rest) - 1)%nat with (length rest) in He
      by (simpl; lia).
    exists e. split.
    + cbn [seq Py.for_each]. unfold integrate_step at 1, Py.index.
      rewrite Hn1. replace (k + 1)%nat with (S k) by lia. rewrite Hn2.
      destruct s1 as [t1 p1], s2 as [t2 p2].
      cbn [Py.bind Py.ret app]. unfold trapezoid, active_w in He.
      cbn [fst snd] in He. unfold Py.max. rewrite He. reflexivity.
    + rewrite Heq. cbn [trapezoid_sum]. lra.
Qed.

(** With two or more samples selected, [integrate_energy] returns the
    trapezoid sum of the selection and prints nothing. *)
Lemma integrate_energy_many self t_start t_end idle_mw :
  (2 <= length (get_samples self (Some t_start) (Some t_end)))%nat ->
  exists e,
    integrate_energy self t_start t_end idle_mw = (Py.Return e, [])
    /\ e == trapezoid_sum idle_mw (get_samples self (Some t_start) (Some t_end)).
Proof.
  intros Hlen. unfold integrate_energy.
  set (sel := get_samples self (Some t_start) (Some t_end)) in *.
  destruct (Nat.ltb_spec (length sel) 2) as [Hlt|_]; [lia|].
  destruct (integrate_loop sel idle_mw sel 0%nat 0 eq_refl) as (e & He & Heq);
    [lia|].
  exists e. split; [exact He|]. rewrite Heq. lra.
Qed.

(** With exactly one sample selected, the result is the clamped product
    of that sample's net power with the window length, after one
    warning. *)
Lemma integrate_energy_one self t_start t_end idle_mw s :
  get_samples self (Some t_start) (Some t_end) = [s] ->
  integrate_energy self t_start t_end idle_mw
  = (Py.Return (Qmax 0 ((snd s - idle_mw) / 1000 * (t_end - t_start))),
     [Py.PrintWarningOnlySamples 1]).
Proof. intros H. unfold integrate_energy. rewrite H. reflexivity. Qed.

(** With no sample selected, the result is zero after one warning. *)
Lemma integrate_energy_none self t_start t_end idle_mw :
  get_samples self (Some t_start) (Some t_end) = [] ->
  integrate_energy self t_start t_end idle_mw
  = (Py.Return 0, [Py.PrintWarningOnlySamples 0]).
Proof. intros H. unfold integrate_energy. rewrite H. reflexivity. Qed.

(** ** Clamping and the trapezoid sum *)

(** Linear arithmetic after the divisions by the constants [1000] and
    [2] are turned into multiplications. *)
Ltac qarith :=
  unfold Qdiv in *;
  change (/ 1000) with (1 # 1000) in *;
  change (/ 2) with (1 # 2) in *;
  lra.

Lemma active_w_nonneg idle_mw p : 0 <= active_w idle_mw p.
Proof.
  unfold active_w.
  destruct (Q.max_spec 0 (p - idle_mw)) as [[H E]|[H E]]; rewrite E; qarith.
Qed.


Lemma active_w_antitone idle1 idle2 p :
  idle1 <= idle2 -> active_w idle2 p <= active_w idle1 p.
Proof.
  intros Hle. unfold active_w.
  destruct (Q.max_spec 0 (p - idle1)) as [[H1 E1]|[H1 E1]];
  destruct (Q.max_spec 0 (p - idle2)) as [[H2 E2]|[H2 E2]];
  rewrite E1, E2; qarith.
Qed.

Lemma trapezoid_nonneg idle_mw s1 s2 :
  fst s1 <= fst s2 -> 0 <= trapezoid idle_mw s1 s2.
Proof.
  intros Ht. unfold trapezoid. apply Qmult_le_0_compat; [|qarith].
  pose proof (active_w_nonneg idle_mw (snd s1)).
  pose proof (active_w_nonneg idle_mw (snd s2)). qarith.
Qed.

Lemma trapezoid_antitone idle1 idle2 s1 s2 :
  fst s1 <= fst s2 -> idle1 <= idle2 ->
  trapezoid idle2 s1 s2 <= trapezoid idle1 s1 s2.
Proof.
  intros Ht Hle. unfold trapezoid. apply Qmult_le_compat_r; [|qarith].
  pose proof (active_w_antitone idle1 idle2 (snd s1) Hle).
  pose proof (active_w_antitone idle1 idle2 (snd s2) Hle). qarith.
Qed.

Lemma trapezoid_sum_nonneg idle_mw l :
  time_ordered l -> 0 <= trapezoid_sum idle_mw l.
Proof.
  induction l as [|s1 l IH]; intros Hs; [simpl; qarith|].
  destruct l as [|s2 l]; [simpl; qarith|].
  inversion Hs as [|? ? Hs' Hd]; subst. inversion Hd; subst.
  change (0 <= trapezoid idle_mw s1 s2 + trapezoid_sum idle_mw (s2 :: l)).
  pose proof (trapezoid_nonneg idle_mw s1 s2 ltac:(assumption)).
  specialize (IH Hs'). qarith.
Qed.

Lemma trapezoid_sum_antitone idle1 idle2 l :
  time_ordered l -> idle1 <= idle2 ->
  trapezoid_sum idle2 l <= trapezoid_sum idle1 l.
Proof.
  intros Hs Hle. induction l as [|s1 l IH]; [simpl; qarith|].
  destruct l as [|s2 l]; [simpl; qarith|].
  inversion Hs as [|? ? Hs' Hd]; subst. inversion Hd; subst.
  change (trapezoid idle2 s1 s2 + trapezoid_sum idle2 (s2 :: l)
          <= trapezoid idle1 s1 s2 + trapezoid_sum idle1 (s2 :: l)).
  pose proof (trapezoid_antitone idle1 idle2 s1 s2 ltac:(assumption) Hle).
  specialize (IH Hs'). qarith.
Qed.


(** The query keeps the order of the buffer. *)
Lemma get_samples_time_ordered self t_start t_end :
  time_ordered (samples self) ->
  time_ordered (get_samples self (Some t_start) (Some t_end)).
Proof.
  unfold time_ordered. intros Hs. rewrite get_samples_filter.
  apply StronglySorted_Sorted.
  apply Sorted_StronglySorted in Hs;
    [|intros a b c Hab Hbc; apply Qle_trans with (fst b); assumption].
  induction Hs as [|a l Hs IH Hall]; simpl; [constructor|].
  destruct (Qle_bool t_start (fst a) && Qle_bool (fst a) t_end); [|exact IH].
  constructor; [exact IH|].
  apply Forall_forall. intros x Hx. apply filter_In in Hx.
  rewrite Forall_forall in Hall. apply Hall. tauto.
Qed.

(** The clamp commutes with the conversion and with a window of
    non-negative length. *)
Lemma max_scale x d :
  0 <= d -> Qmax 0 (x / 1000 * d) == Qmax 0 x / 1000 * d.
Proof.
  intros Hd.
  destruct (Q.max_spec 0 x) as [[H1 E1]|[H1 E1]];
  destruct (Q.max_spec 0 (x / 1000 * d)) as [[H2 E2]|[H2 E2]];
  rewrite E1, E2.
  - reflexivity.
  - assert (0 <= x / 1000 * d) by (apply Qmult_le_0_compat; qarith). qarith.
  - assert (0 <= (- x) / 1000 * d) by (apply Qmult_le_0_compat; qarith).
    assert ((- x) / 1000 * d == - (x / 1000 * d)) by field. qarith.
  - field.
Qed.

Lemma returns_of_eq (m : Py.t Q) e v out :
  m = (Py.Return e, out) -> e == v -> returns m v.
Proof. intros -> H. exact H. Qed.

(** When the whole buffer lies in the window, the integral runs over the
    whole buffer. *)
Lemma integrate_energy_whole_buffer self t_start t_end idle_mw :
  (2 <= length (samples self))%nat ->
  Forall (in_window t_start t_end) (samples self) ->
  returns (integrate_energy self t_start t_end idle_mw)
          (trapezoid_sum idle_mw (samples self)).
Proof.
  intros Hlen Hall.
  pose proof (get_samples_all self t_start t_end Hall) as Hsel.
  destruct (integrate_energy_many self t_start t_end idle_mw) as (e & He & Heq).
  - rewrite Hsel. exact Hlen.
  - rewrite Hsel in Heq. exact (returns_of_eq _ _ _ _ He Heq).
Qed.

Lemma last_cons {A} (l : list A) : forall a d, last (a :: l) d = last l a.
Proof.
  induction l as [|b l IH]; intros a d; [reflexivity|].
  change (last (a :: b :: l) d) with (last (b :: l) d).
  rewrite (IH b d), (IH b a). reflexivity.
Qed.

(** With a constant reading, the integral is that net power times the
    span between the first and the last sample. *)
Lemma trapezoid_sum_constant_power idle_mw p s l :
  Forall (fun x => snd x = p) (s :: l) ->
  trapezoid_sum idle_mw (s :: l)
  == active_w idle_mw p * (fst (last l s) - fst s).
Proof.
  revert s. induction l as [|s2 l IH]; intros s Hall.
  - simpl. ring.
  - apply Forall_cons_iff in Hall. destruct Hall as [Hs Hl].
    assert (Hp : snd s2 = p) by (apply Forall_cons_iff in Hl; tauto).
    change (trapezoid idle_mw s s2 + trapezoid_sum idle_mw (s2 :: l)
            == active_w idle_mw p * (fst (last (s2 :: l) s) - fst s)).
    rewrite (IH s2 Hl). unfold trapezoid. rewrite Hs, Hp.
    rewrite last_cons. field.
Qed.

(** ** Claims on the energy integrator *)

(** C1. For every buffer that holds two or more samples with a timestamp
    in [[t_start, t_end]], whatever else it holds, [integrate_energy]
    returns the sum over the consecutive pairs [(t1,p1),(t2,p2)] of those
    samples of
    [((max(0,p1-idle)/1000 + max(0,p2-idle)/1000)/2) * (t2-t1)]; with
    the samples (0, 1000 mW) and (2, 2000 mW) and no idle power,
    [integrate_energy(0,2,0)] returns 3 joules, also when the buffer
    holds a further sample outside the window. *)
Theorem integrate_energy_trapezoid_sum :
  (forall self t_start t_end idle_mw,
      (2 <= length (window_samples t_start t_end (samples self)))%nat ->
      returns (integrate_energy self t_start t_end idle_mw)
              (trapezoid_sum idle_mw
                 (window_samples t_start t_end (samples self))))
  /\ (forall self t_start t_end idle_mw,
      (2 <= length (samples self))%nat ->
      Forall (in_window t_start t_end) (samples self) ->
      returns (integrate_energy self t_start t_end idle_mw)
              (trapezoid_sum idle_mw (samples self)))
  /\ returns (integrate_energy (with_samples [(0, 1000); (2, 2000)]) 0 2 0) 3
  /\ returns (integrate_energy
                (with_samples [(0, 1000); (2, 2000); (10, 9000)]) 0 2 0) 3.
Proof.
  split; [|split; [|split]].
  - intros self t_start t_end idle_mw Hlen. unfold window_samples in *.
    rewrite <- get_samples_filter in *.
    destruct (integrate_energy_many self t_start t_end idle_mw Hlen)
      as (e & He & Heq).
    exact (returns_of_eq _ _ _ _ He Heq).
  - exact integrate_energy_whole_buffer.
  - vm_compute. reflexivity.
  - vm_compute. reflexivity.
Qed.

Lemma integrate_energy_trapezoid_sum_witness :
  let self := with_samples [(0, 1000); (1, 3000); (3, 2000); (10, 9000)] in
  (2 <= length (window_samples 0 3 (samples self)))%nat
  /\ returns (integrate_energy self 0 3 500)
             (trapezoid_sum 500 (window_samples 0 3 (samples self))).
Proof.
  intros self.
  assert (H1 : (2 <= length (window_samples 0 3 (samples self)))%nat)
    by (simpl; lia).
  exact (conj H1 (proj1 integrate_energy_trapezoid_sum self 0 3 500 H1)).
Defined.

(** C2, as the code has it.  When exactly one sample lies in the window,
    [integrate_energy] returns
    [max(0, p - idle_mw) / 1000 * (t_end - t_start)] for that sample's
    power [p]; a single buffered sample (4, 3000 mW) with idle power
    1000 mW and window [0,4] gives 8 joules, and a single buffered sample
    (5, 3000 mW), which lies outside the window [0,4], gives 0 with the
    warning for no samples. *)
Theorem integrate_energy_single_sample :
  (forall self t_start t_end idle_mw s,
      get_samples self (Some t_start) (Some t_end) = [s] ->
      returns (integrate_energy self t_start t_end idle_mw)
              (Qmax 0 (snd s - idle_mw) / 1000 * (t_end - t_start)))
  /\ returns (integrate_energy (with_samples [(4, 3000)]) 0 4 1000) 8
  /\ integrate_energy (with_samples [(5, 3000)]) 0 4 1000
     = (Py.Return 0, [Py.PrintWarningOnlySamples 0]).
Proof.
  split; [|split].
  - intros self t_start t_end idle_mw s Hsel.
    rewrite (integrate_energy_one _ _ _ _ _ Hsel). unfold returns. simpl.
    apply max_scale.
    assert (Hin : In s (get_samples self (Some t_start) (Some t_end)))
      by (rewrite Hsel; left; reflexivity).
    apply get_samples_in_window in Hin. destruct Hin as [_ [H1 H2]]. lra.
  - vm_compute. reflexivity.
  - reflexivity.
Qed.

Lemma integrate_energy_single_sample_witness :
  let self := with_samples [(1, 500); (2, 3000); (7, 900)] in
  get_samples self (Some (3 # 2)) (Some 4) = [(2, 3000)]
  /\ returns (integrate_energy self (3 # 2) 4 1000)
             (Qmax 0 (3000 - 1000) / 1000 * (4 - (3 # 2))).
Proof.
  intros self.
  assert (H : get_samples self (Some (3 # 2)) (Some 4) = [(2, 3000)])
    by reflexivity.
  exact (conj H (proj1 integrate_energy_single_sample self (3 # 2) 4 1000
                   (2, 3000) H)).
Defined.

(** C2, as the specification words its example: the single buffered
    sample at t=5 is outside the window [0,4], so the call finds no
    sample and returns 0, not 8. *)
Lemma single_sample_outside_window :
  integrate_energy (with_samples [(5, 3000)]) 0 4 1000
  = (Py.Return 0, [Py.PrintWarningOnlySamples 0])
  /\ ~ returns (integrate_energy (with_samples [(5, 3000)]) 0 4 1000) 8.
Proof.
  split; [reflexivity|].
  unfold returns. simpl. unfold Qeq. simpl. lia.
Qed.

(** C3. For a buffer in non-decreasing timestamp order and a window with
    [t_start <= t_end], raising [idle_mw] never raises the returned
    energy, and the returned energy is never negative. *)
Theorem integrate_energy_idle_monotone self t_start t_end idle1 idle2 :
  time_ordered (samples self) -> t_start <= t_end -> idle1 <= idle2 ->
  exists e1 e2,
    Py.value (integrate_energy self t_start t_end idle1) = Py.Return e1
    /\ Py.value (integrate_energy self t_start t_end idle2) = Py.Return e2
    /\ e2 <= e1 /\ 0 <= e2 /\ 0 <= e1.
Proof.
  intros Hs Hw Hle.
  pose proof (get_samples_time_ordered self t_start t_end Hs) as Hsel.
  destruct (get_samples self (Some t_start) (Some t_end))
    as [|s [|s' l]] eqn:E.
  - rewrite !(integrate_energy_none _ _ _ _ E).
    exists 0, 0. repeat split; lra.
  - rewrite !(integrate_energy_one _ _ _ _ _ E).
    eexists _, _. split; [reflexivity|]. split; [reflexivity|].
    repeat split; try apply Q.le_max_l.
    apply Q.max_le_compat_l. apply Qmult_le_compat_r; qarith.
  - destruct (integrate_energy_many self t_start t_end idle1) as (e1 & H1 & Q1);
      [rewrite E; simpl; lia|].
    destruct (integrate_energy_many self t_start t_end idle2) as (e2 & H2 & Q2);
      [rewrite E; simpl; lia|].
    rewrite E in Q1, Q2. rewrite H1, H2. exists e1, e2.
    split; [reflexivity|]. split; [reflexivity|]. rewrite Q1, Q2.
    repeat split.
    + apply trapezoid_sum_antitone; assumption.
    + apply trapezoid_sum_nonneg; assumption.
    + apply trapezoid_sum_nonneg; assumption.
Qed.

Lemma integrate_energy_idle_monotone_witness :
  let self := with_samples [(0, 1000); (1, 3000); (3, 2000)] in
  exists e1 e2,
    Py.value (integrate_energy self 0 3 0) = Py.Return e1
    /\ Py.value (integrate_energy self 0 3 500) = Py.Return e2
    /\ e2 <= e1 /\ 0 <= e2 /\ 0 <= e1.
Proof.
  intros self.
  apply (integrate_energy_idle_monotone self 0 3 0 500).
  - repeat constructor; unfold Qle; simpl; lia.
  - unfold Qle; simpl; lia.
  - unfold Qle; simpl; lia.
Defined.



(** C5. For every window in which no buffered sample falls, and so for
    every window with [t_start > t_end], [integrate_energy] returns 0
    after printing its warning, and does not raise. *)
Theorem integrate_energy_empty_window self t_start t_end idle_mw :
  get_samples self (Some t_start) (Some t_end) = [] \/ t_end < t_start ->
  integrate_energy self t_start t_end idle_mw
  = (Py.Return 0, [Py.PrintWarningOnlySamples 0]).
Proof.
  intros [H|H]; apply integrate_energy_none; [exact H|].
  apply get_samples_inverted. exact H.
Qed.

Lemma integrate_energy_empty_window_witness :
  integrate_energy (with_samples [(1, 1000); (2, 2000)]) 3 0 100
  = (Py.Return 0, [Py.PrintWarningOnlySamples 0])
  /\ integrate_energy (with_samples [(1, 1000); (2, 2000)]) 5 8 100
     = (Py.Return 0, [Py.PrintWarningOnlySamples 0]).
Proof.
  split.
  - apply integrate_energy_empty_window. right. unfold Qlt; simpl; lia.
  - apply integrate_energy_empty_window. left. reflexivity.
Defined.

(** C10. With two or more samples in the window, the returned energy is
    the trapezoid sum of the selected samples alone: two windows that
    select the same samples of the buffer give the same result, whatever
    their lengths. *)
Theorem integrate_energy_window_independent
    self t_start t_end t_start' t_end' idle_mw :
  get_samples self (Some t_start) (Some t_end)
  = get_samples self (Some t_start') (Some t_end') ->
  (2 <= length (get_samples self (Some t_start) (Some t_end)))%nat ->
  integrate_energy self t_start t_end idle_mw
  = integrate_energy self t_start' t_end' idle_mw
  /\ returns (integrate_energy self t_start t_end idle_mw)
             (trapezoid_sum idle_mw (get_samples self (Some t_start) (Some t_end))).
Proof.
  intros Hsame Hlen. split.
  - unfold integrate_energy. rewrite <- Hsame.
    destruct (Nat.ltb_spec
                (length (get_samples self (Some t_start) (Some t_end))) 2);
      [lia|reflexivity].
  - destruct (integrate_energy_many self t_start t_end idle_mw Hlen)
      as (e & He & Heq).
    exact (returns_of_eq _ _ _ _ He Heq).
Qed.

Lemma integrate_energy_window_independent_witness :
  let self := with_samples [(0, 700); (1, 1000); (2, 2000); (10, 900)] in
  integrate_energy self (1 # 2) 3 100 = integrate_energy self 1 9 100
  /\ returns (integrate_energy self (1 # 2) 3 100)
             (trapezoid_sum 100 (get_samples self (Some (1 # 2)) (Some 3))).
Proof.
  intros self.
  apply (integrate_energy_window_independent self (1 # 2) 3 1 9 100).
  - reflexivity.
  - simpl; lia.
Defined.

(** ** The bounded buffer *)

Section Deque.
Context {A : Type}.
Variable cap : nat.

Lemma tl_skipn (k : nat) : forall m : list A, tl (skipn k m) = skipn (S k) m.
Proof.
  induction k as [|k IH]; intros [|a m]; try reflexivity.
  change (tl (skipn k m) = skipn (S k) m). apply IH.
Qed.

Lemma lastn_short (l : list A) : (length l <= cap)%nat -> lastn cap l = l.
Proof.
  intros H. unfold lastn. replace (length l - cap)%nat with 0%nat by lia.
  reflexivity.
Qed.

Lemma length_lastn (l : list A) : length (lastn cap l) = Nat.min cap (length l).
Proof. unfold lastn. rewrite length_skipn. lia. Qed.

(** Appending to the [cap] most recent items of [l] leaves the [cap]
    most recent items of [l] followed by the new one. *)
Lemma deque_append_lastn (l : list A) (x : A) :
  deque_append cap (lastn cap l) x = lastn cap (l ++ [x]).
Proof.
  unfold deque_append.
  rewrite length_app, length_lastn. cbn [length].
  unfold lastn. rewrite length_app. cbn [length].
  destruct (Nat.ltb_spec cap (Nat.min cap (length l) + 1)) as [Hfull|Hroom].
  - replace (length l + 1 - cap)%nat with (S (length l - cap)) by lia.
    rewrite <- tl_skipn, skipn_app.
    replace (length l - cap - length l)%nat with 0%nat by lia.
    reflexivity.
  - replace (length l + 1 - cap)%nat with 0%nat by lia.
    replace (length l - cap)%nat with 0%nat by lia.
    reflexivity.
Qed.

(** After any sequence of appends the deque holds the [cap] most
    recent items of everything it was given. *)
Lemma deque_append_all (xs : list A) : forall d,
  (length d <= cap)%nat ->
  fold_left (deque_append cap) xs d = lastn cap (d ++ xs).
Proof.
  induction xs as [|x xs IH] using rev_ind; intros d Hd.
  - rewrite app_nil_r. symmetry. apply lastn_short. exact Hd.
  - rewrite fold_left_app. cbn [fold_left]. rewrite (IH d Hd).
    rewrite deque_append_lastn, app_assoc. reflexivity.
Qed.

Lemma lastn_overflow (d xs : list A) :
  (cap <= length xs)%nat ->
  lastn cap (d ++ xs) = skipn (length xs - cap) xs.
Proof.
  intros H. unfold lastn. rewrite length_app, skipn_app.
  rewrite skipn_all2 by lia.
  replace (length d + length xs - cap - length d)%nat
    with (length xs - cap)%nat by lia.
  reflexivity.
Qed.

Lemma deque_append_length (d : list A) (x : A) :
  (length d <= cap)%nat -> (length (deque_append cap d x) <= cap)%nat.
Proof.
  intros H. unfold deque_append.
  destruct (Nat.ltb_spec cap (length (d ++ [x]))) as [Hfull|Hroom].
  - rewrite length_app in Hfull. cbn [length] in Hfull.
    destruct d; cbn [app tl length] in *; [lia|].
    rewrite length_app. cbn [length]. lia.
  - exact Hroom.
Qed.

Lemma deque_append_full (d : list A) (x : A) :
  (0 < cap)%nat -> length d = cap -> deque_append cap d x = tl d ++ [x].
Proof.
  intros Hpos H. unfold deque_append. rewrite length_app. cbn [length].
  destruct (Nat.ltb_spec cap (length d + 1)) as [_|Hroom]; [|lia].
  destruct d; [cbn [length] in H; lia|reflexivity].
Qed.

End Deque.

Lemma samples_append_all xs : forall self,
  samples (fold_left append_sample xs self)
  = fold_left (deque_append maxlen) xs (samples self).
Proof.
  induction xs as [|x xs IH]; intros self; [reflexivity|].
  cbn [fold_left]. rewrite IH. reflexivity.
Qed.

(** The bound of the deque holds initially and is kept by every
    operation on the buffer. *)
Lemma init_within_bound interval : (length (samples (init interval)) <= maxlen)%nat.
Proof. apply Nat.le_0_l. Qed.

Lemma clear_samples_within_bound self :
  (length (samples (clear_samples self)) <= maxlen)%nat.
Proof. apply Nat.le_0_l. Qed.

Lemma append_sample_within_bound self s :
  (length (samples self) <= maxlen)%nat ->
  (length (samples (append_sample self s)) <= maxlen)%nat.
Proof. apply deque_append_length. Qed.

(** C7. Whenever more samples are appended than the capacity of 100,000,
    the buffer holds exactly the 100,000 most recent of them, in the
    order of their appending; an append to a full buffer drops its
    oldest sample and never fails. *)
Theorem buffer_keeps_most_recent self xs :
  (length (samples self) <= maxlen)%nat ->
  (maxlen < length xs)%nat ->
  Z.of_nat maxlen = 100000%Z
  /\ samples (fold_left append_sample xs self) = skipn (length xs - maxlen) xs
  /\ length (samples (fold_left append_sample xs self)) = maxlen
  /\ (forall self' x,
        length (samples self') = maxlen ->
        samples (append_sample self' x) = tl (samples self') ++ [x]).
Proof.
  intros Hinv Hlen.
  assert (E : samples (fold_left append_sample xs self)
              = skipn (length xs - maxlen) xs).
  { rewrite samples_append_all, deque_append_all by exact Hinv.
    apply lastn_overflow. lia. }
  split; [reflexivity|]. split; [exact E|]. split.
  - rewrite E, length_skipn. lia.
  - intros self' x Hfull. apply deque_append_full; [|exact Hfull].
    unfold maxlen. lia.
Qed.

Lemma buffer_keeps_most_recent_witness :
  let xs := steady_samples (S maxlen) 0 in
  samples (fold_left append_sample xs (init 100)) = skipn (length xs - maxlen) xs
  /\ length (samples (fold_left append_sample xs (init 100))) = maxlen.
Proof.
  intros xs.
  assert (H1 : (length (samples (init 100)) <= maxlen)%nat)
    by apply Nat.le_0_l.
  assert (H2 : (maxlen < length xs)%nat)
    by (apply Nat.ltb_lt; vm_compute; reflexivity).
  destruct (buffer_keeps_most_recent (init 100) xs H1 H2) as (_ & E & L & _).
  exact (conj E L).
Defined.

(** ** Stopping *)

Lemma append_all_fields xs : forall self,
  running (fold_left append_sample xs self) = running self
  /\ process (fold_left append_sample xs self) = process self
  /\ thread (fold_left append_sample xs self) = thread self
  /\ interval_ms (fold_left append_sample xs self) = interval_ms self.
Proof.
  induction xs as [|x xs IH]; intros self; [repeat split|].
  cbn [fold_left]. destruct (IH (append_sample self x)) as (A & B & C & D).
  rewrite A, B, C, D. repeat split.
Qed.

Lemma stop_not_running self env :
  running self = false -> stop self env = (self, (Py.Return tt, [])).
Proof. intros H. unfold stop. rewrite H. reflexivity. Qed.

Lemma running_after_stop self env :
  running (fst (stop self env)) = false.
Proof.
  unfold stop. destruct (running self) eqn:R; [|exact R].
  destruct self as [i [p|] [t|] r d];
    cbn [negb fst process thread set_running set_process set_thread];
    match goal with
    | |- running (fold_left append_sample ?xs ?m) = false =>
        destruct (append_all_fields xs m) as (A & _); rewrite A; reflexivity
    end.
Qed.

(** C9. [stop()] on a monitor that is not running returns at once and
    leaves the whole monitor (running flag, process handle, reader
    thread, buffered samples) as it was, with no effect on the outside;
    so a second [stop()] after a first is such a no-op. *)
Theorem stop_idempotent :
  (forall self env,
      running self = false ->
      stop self env = (self, (Py.Return tt, [])))
  /\ (forall self e1 e2,
      stop (fst (stop self e1)) e2 = (fst (stop self e1), (Py.Return tt, []))).
Proof.
  split.
  - exact stop_not_running.
  - intros self e1 e2. apply stop_not_running, running_after_stop.
Qed.

Lemma stop_idempotent_witness :
  let self :=
    {| interval_ms := 100; process := Some {| Py.pid := 4711 |};
       thread := Some {| Py.ident := 1 |}; running := false;
       samples := [(0, 1000); (1, 2000)] |} in
  let env := {| timeout_expired := true; late_samples := [(2, 3000)] |} in
  running self = false /\ stop self env = (self, (Py.Return tt, [])).
Proof.
  intros self env.
  assert (H : running self = false) by reflexivity.
  exact (conj H (proj1 stop_idempotent self env H)).
Defined.

(** ** Idle calibration *)


(** What [measure_idle] queries on a running monitor is the samples of
    the calibration window. *)
Lemma measure_idle_query self env :
  get_samples (fold_left append_sample (appended env) (clear_samples self))
              (Some (time_start env)) (Some (time_end env))
  = calibration_samples env.
Proof.
  rewrite get_samples_filter, samples_append_all.
  rewrite deque_append_all by apply Nat.le_0_l.
  reflexivity.
Qed.

(** As long as the window brings no more samples than the buffer holds,
    they are the appended samples with a timestamp in the window. *)
Lemma calibration_samples_within_capacity env :
  (length (appended env) <= maxlen)%nat ->
  calibration_samples env
  = filter (fun s => Qle_bool (time_start env) (fst s)
                     && Qle_bool (fst s) (time_end env))
           (appended env).
Proof.
  intros H. unfold calibration_samples. rewrite lastn_short by exact H.
  reflexivity.
Qed.






(** ** The power-line parser *)

Lemma digit_not_space c : is_digit c = true -> is_space c = false.
Proof.
  destruct c as [[] [] [] [] [] [] [] []]; vm_compute; congruence.
Qed.

Lemma slash_not_digit : is_digit "/"%char = false.
Proof. reflexivity. Qed.

Lemma re_literal_spec p : forall s r, re_literal p s = Some r <-> s = p ++ r.
Proof.
  induction p as [|c p IH]; intros s r; simpl.
  - split; [intros [= ->]; reflexivity|intros ->; reflexivity].
  - destruct s as [|d s]; [split; discriminate|].
    destruct (Ascii.eqb_spec c d) as [->|Hne].
    + rewrite IH. split; [intros ->; reflexivity|intros [= ->]; reflexivity].
    + split; [discriminate|intros [= E _]; congruence].
Qed.

Section Span.
Variable f : ascii -> bool.

Lemma re_span_spec s : forall r rest,
  re_span f s = (r, rest) ->
  s = r ++ rest /\ forallb f r = true /\ stops f rest.
Proof.
  induction s as [|c s IH]; intros r rest H; simpl in H.
  - inversion H; subst. repeat split.
  - destruct (f c) eqn:Fc.
    + destruct (re_span f s) as [r' rest'] eqn:E. inversion H; subst.
      destruct (IH r' rest eq_refl) as (-> & Hall & Hstop).
      repeat split; [simpl; rewrite Fc, Hall; reflexivity|exact Hstop].
    + inversion H; subst. repeat split. exact Fc.
Qed.

Lemma re_span_app a : forall rest,
  forallb f a = true ->
  re_span f (a ++ rest)
  = (a ++ fst (re_span f rest), snd (re_span f rest)).
Proof.
  induction a as [|c a IH]; intros rest H; simpl in *.
  - destruct (re_span f rest); reflexivity.
  - apply andb_true_iff in H. destruct H as [Fc Ha].
    rewrite Fc, (IH rest Ha). reflexivity.
Qed.

Lemma re_span_stops rest : stops f rest -> re_span f rest = ([], rest).
Proof.
  destruct rest as [|c rest]; simpl; [reflexivity|]. intros ->. reflexivity.
Qed.

Lemma re_plus_spec s r rest :
  re_plus f s = Some (r, rest) ->
  s = r ++ rest /\ r <> [] /\ forallb f r = true /\ stops f rest.
Proof.
  unfold re_plus. destruct (re_span f s) as [r' rest'] eqn:E.
  destruct r' as [|c r']; [discriminate|]. intros [= <- <-].
  destruct (re_span_spec _ _ _ E) as (H1 & H2 & H3).
  repeat split; try assumption. discriminate.
Qed.

(** A non-empty run of the class before a text that stops is what
    [class+] takes. *)
Lemma re_plus_run a rest :
  a <> [] -> forallb f a = true -> stops f rest ->
  re_plus f (a ++ rest) = Some (a, rest).
Proof.
  intros Hne Ha Hstop. unfold re_plus.
  rewrite (re_span_app a rest Ha), (re_span_stops rest Hstop).
  cbn [fst snd]. rewrite app_nil_r.
  destruct a; [contradiction|reflexivity].
Qed.

(** A non-empty run of the class is the beginning of what [class+]
    takes. *)
Lemma re_plus_prefix a rest :
  a <> [] -> forallb f a = true ->
  exists g rest', re_plus f (a ++ rest) = Some (g, rest').
Proof.
  intros Hne Ha. unfold re_plus. rewrite (re_span_app a rest Ha).
  destruct a as [|c a]; [contradiction|].
  eexists _, _. reflexivity.
Qed.

End Span.

(** The matcher at one position finds a reading exactly where one is. *)
Lemma re_match_field_sound name s g1 g2 :
  re_match_field name s = Some (g1, g2) -> reading name g1 g2 s.
Proof.
  unfold re_match_field.
  destruct (re_literal name s) as [s1|] eqn:L1; [|discriminate].
  destruct (re_plus is_space s1) as [[ws s2]|] eqn:P1; [|discriminate].
  destruct (re_plus is_digit s2) as [[d1 s3]|] eqn:P2; [|discriminate].
  destruct (re_literal (lit "/") s3) as [s4|] eqn:L2; [|discriminate].
  destruct (re_plus is_digit s4) as [[d2 s5]|] eqn:P3; [|discriminate].
  intros [= <- <-].
  apply re_literal_spec in L1, L2.
  apply re_plus_spec in P1, P2, P3.
  destruct P1 as (E1 & N1 & A1 & _), P2 as (E2 & N2 & A2 & _),
           P3 as (E3 & N3 & A3 & _).
  exists ws, s5. subst. repeat split; assumption.
Qed.

Lemma re_match_field_complete name s cur avg :
  reading name cur avg s -> exists g2, re_match_field name s = Some (cur, g2).
Proof.
  intros (ws & rest & -> & Nws & Aws & Ncur & Acur & Navg & Aavg).
  unfold re_match_field.
  rewrite (proj2 (re_literal_spec name _ _) eq_refl).
  rewrite (re_plus_run is_space ws _ Nws Aws).
  2:{ destruct cur as [|c cur]; [contradiction|]. simpl in Acur |- *.
      apply andb_true_iff in Acur. apply digit_not_space. tauto. }
  rewrite (re_plus_run is_digit cur _ Ncur Acur) by exact slash_not_digit.
  rewrite (proj2 (re_literal_spec (lit "/") _ _) eq_refl).
  destruct (re_plus_prefix is_digit avg rest Navg Aavg) as (g & rest' & ->).
  exists g. reflexivity.
Qed.

(** The search returns the leftmost reading, and nothing when there is
    none. *)
Lemma re_search_field_first name cur : forall line,
  first_reading name line cur ->
  exists g2, re_search_field name line = Some (cur, g2).
Proof.
  intros line (pre & s & avg & -> & Hr & Hmin).
  induction pre as [|a pre IH].
  - destruct (re_match_field_complete _ _ _ _ Hr) as [g2 Hm].
    exists g2. destruct s; simpl in *; rewrite Hm; reflexivity.
  - cbn [app re_search_field].
    destruct (re_match_field name (a :: pre ++ s)) as [[c g]|] eqn:Hm.
    + apply re_match_field_sound in Hm.
      exfalso. apply (Hmin [] (a :: pre ++ s) c g); [reflexivity|simpl; lia|].
      exact Hm.
    + apply IH. intros pre' s' c g E Hlt.
      apply (Hmin (a :: pre') s' c g); [simpl; rewrite E; reflexivity|].
      simpl. lia.
Qed.

Lemma re_search_field_none name : forall line,
  no_reading name line -> re_search_field name line = None.
Proof.
  induction line as [|a line IH]; intros Hno.
  - cbn [re_search_field].
    destruct (re_match_field name []) as [[c g]|] eqn:Hm; [|reflexivity].
    apply re_match_field_sound in Hm. exfalso. exact (Hno [] [] c g eq_refl Hm).
  - cbn [re_search_field].
    destruct (re_match_field name (a :: line)) as [[c g]|] eqn:Hm.
    + apply re_match_field_sound in Hm.
      exfalso. exact (Hno [] (a :: line) c g eq_refl Hm).
    + apply IH. intros pre s c g E.
      apply (Hno (a :: pre) s c g). simpl. rewrite E. reflexivity.
Qed.

(** Conversely, what the search returns is a leftmost reading, and when
    it returns nothing there is none. *)
Lemma re_search_field_found name : forall line g1 g2,
  re_search_field name line = Some (g1, g2) -> first_reading name line g1.
Proof.
  induction line as [|a line IH]; intros g1 g2 H; cbn [re_search_field] in H.
  - destruct (re_match_field name []) as [[c g]|] eqn:Hm; [|discriminate].
    inversion H; subst. apply re_match_field_sound in Hm.
    exists [], [], g2. split; [reflexivity|]. split; [exact Hm|].
    intros ? ? ? ? _ Hlt. simpl in Hlt. lia.
  - destruct (re_match_field name (a :: line)) as [[c g]|] eqn:Hm.
    + inversion H; subst. apply re_match_field_sound in Hm.
      exists [], (a :: line), g2. split; [reflexivity|]. split; [exact Hm|].
      intros ? ? ? ? _ Hlt. simpl in Hlt. lia.
    + destruct (IH g1 g2 H) as (pre & s & avg & E & Hr & Hmin).
      exists (a :: pre), s, avg. split; [simpl; rewrite E; reflexivity|].
      split; [exact Hr|].
      intros pre' s' c g E' Hlt Hr'. destruct pre' as [|b pre'].
      * simpl in E'. subst s'.
        destruct (re_match_field_complete _ _ _ _ Hr') as [g' Hm'].
        congruence.
      * simpl in E'. inversion E'; subst b.
        apply (Hmin pre' s' c g); [assumption|simpl in Hlt; lia|exact Hr'].
Qed.

Lemma re_search_field_absent name : forall line,
  re_search_field name line = None -> no_reading name line.
Proof.
  induction line as [|a line IH]; intros H pre s c g E Hr;
    cbn [re_search_field] in H.
  - destruct pre; [|discriminate]. simpl in E. subst s.
    destruct (re_match_field_complete _ _ _ _ Hr) as [g' Hm].
    rewrite Hm in H. discriminate.
  - destruct (re_match_field name (a :: line)) as [[c' g']|] eqn:Hm;
      [discriminate|].
    destruct pre as [|b pre].
    + simpl in E. subst s.
      destruct (re_match_field_complete _ _ _ _ Hr) as [g'' Hm'].
      congruence.
    + simpl in E. inversion E; subst.
      exact (IH H pre s c g eq_refl Hr).
Qed.

Lemma first_reading_digits name line cur :
  first_reading name line cur -> cur <> [] /\ forallb is_digit cur = true.
Proof.
  intros (pre & s & avg & _ & (ws & rest & _ & _ & _ & N & A & _) & _).
  split; assumption.
Qed.

(** C8. For every line, [_parse_power] returns the value of the current
    (first) member of the leftmost [VDD_IN] reading, whatever the
    average member is; when the line has no [VDD_IN] reading, that of the
    leftmost [POM_5V_IN] reading; and [None] when it has neither.  It
    returns nothing else, and being a total function it raises nothing.
    A field name followed by text that is not a pair of digit runs is no
    reading: such lines give [None]. *)
Theorem parse_power_current_member :
  (forall line,
      (forall cur,
          first_reading (lit "VDD_IN") line cur ->
          _parse_power line = Some (float_of_digits cur))
      /\ (forall cur,
          no_reading (lit "VDD_IN") line ->
          first_reading (lit "POM_5V_IN") line cur ->
          _parse_power line = Some (float_of_digits cur))
      /\ (no_reading (lit "VDD_IN") line ->
          no_reading (lit "POM_5V_IN") line ->
          _parse_power line = None)
      /\ match _parse_power line with
         | Some v =>
             exists cur,
               v = float_of_digits cur
               /\ (first_reading (lit "VDD_IN") line cur
                   \/ (no_reading (lit "VDD_IN") line
                       /\ first_reading (lit "POM_5V_IN") line cur))
         | None =>
             no_reading (lit "VDD_IN") line
             /\ no_reading (lit "POM_5V_IN") line
         end)
  /\ _parse_power (lit "CPU@38.5C VDD_IN 2594/2601 VDD_SOC 922/922") = Some 2594
  /\ _parse_power (lit "RAM 2156/7471MB POM_5V_IN 1830/1790") = Some 1830
  /\ _parse_power (lit "RAM 2156/7471MB CPU@38.5C GPU@34C") = None
  /\ _parse_power (lit "VDD_IN 12.5/13") = None
  /\ _parse_power (lit "VDD_IN abc/def") = None
  /\ _parse_power (lit "VDD_IN -5/3 POM_5V_IN 1e3/1000") = None.
Proof.
  split; [|repeat split; reflexivity].
  intros line. split; [|split; [|split]].
  - intros cur H.
    destruct (re_search_field_first _ _ _ H) as [g2 E].
    unfold _parse_power. rewrite E. reflexivity.
  - intros cur Hno H.
    destruct (re_search_field_first _ _ _ H) as [g2 E].
    unfold _parse_power.
    rewrite (re_search_field_none _ _ Hno), E. reflexivity.
  - intros Hno1 Hno2. unfold _parse_power.
    rewrite (re_search_field_none _ _ Hno1), (re_search_field_none _ _ Hno2).
    reflexivity.
  - unfold _parse_power.
    destruct (re_search_field (lit "VDD_IN") line) as [[g1 g2]|] eqn:E1.
    + exists g1. split; [reflexivity|]. left.
      exact (re_search_field_found _ _ _ _ E1).
    + pose proof (re_search_field_absent _ _ E1) as Hno1.
      destruct (re_search_field (lit "POM_5V_IN") line) as [[g1 g2]|] eqn:E2.
      * exists g1. split; [reflexivity|]. right. split; [exact Hno1|].
        exact (re_search_field_found _ _ _ _ E2).
      * split; [exact Hno1|]. exact (re_search_field_absent _ _ E2).
Qed.

Lemma parse_power_current_member_witness :
  let line := lit "VDD_IN 2594/2601 VDD_CPU_GPU_CV 307/307" in
  first_reading (lit "VDD_IN") line (lit "2594")
  /\ _parse_power line = Some (float_of_digits (lit "2594")).
Proof.
  intros line.
  assert (H : first_reading (lit "VDD_IN") line (lit "2594")).
  { exists [], line, (lit "2601"). split; [reflexivity|]. split.
    - exists (lit " "), (lit " VDD_CPU_GPU_CV 307/307").
      repeat split; try reflexivity; discriminate.
    - intros pre' s' cur' avg' _ Hlt. simpl in Hlt. lia. }
  exact (conj H (proj1 (proj1 parse_power_current_member line) (lit "2594") H)).
Defined.

(** * Further properties of the sampler *)

(** ** What the parser returns *)

Lemma digit_value_range c : is_digit c = true -> (0 <= digit_value c <= 9)%Z.
Proof.
  unfold is_digit, digit_value. intros H.
  apply andb_true_iff in H. destruct H as [H1 H2].
  apply N.leb_le in H1, H2. lia.
Qed.

Lemma decimal_nonneg g : forall acc,
  forallb is_digit g = true -> (0 <= acc)%Z ->
  (0 <= fold_left (fun acc c => 10 * acc + digit_value c) g acc)%Z.
Proof.
  induction g as [|c g IH]; intros acc Hg Hacc; cbn [forallb fold_left] in *;
    [exact Hacc|].
  apply andb_true_iff in Hg. destruct Hg as [Hc Hg].
  apply IH; [exact Hg|]. pose proof (digit_value_range c Hc). lia.
Qed.

Lemma decimal_below g : forall acc,
  forallb is_digit g = true -> (0 <= acc)%Z ->
  (fold_left (fun acc c => 10 * acc + digit_value c) g acc
   < (acc + 1) * 10 ^ Z.of_nat (length g))%Z.
Proof.
  induction g as [|c g IH]; intros acc Hg Hacc; cbn [forallb fold_left length] in *.
  - change (10 ^ Z.of_nat 0)%Z with 1%Z. lia.
  - apply andb_true_iff in Hg. destruct Hg as [Hc Hg].
    pose proof (digit_value_range c Hc) as Hd.
    specialize (IH (10 * acc + digit_value c)%Z Hg ltac:(lia)).
    rewrite Nat2Z.inj_succ, Z.pow_succ_r by lia.
    pose proof (Z.pow_nonneg 10 (Z.of_nat (length g)) ltac:(lia)) as Hp.
    eapply Z.lt_le_trans; [exact IH|].
    replace ((acc + 1) * (10 * 10 ^ Z.of_nat (length g)))%Z
      with ((10 * acc + 10) * 10 ^ Z.of_nat (length g))%Z by ring.
    apply Z.mul_le_mono_nonneg_r; lia.
Qed.

(** X1. When the current member of the reading that [_parse_power] takes
    (the leftmost [VDD_IN] reading or, when the line has none, the
    leftmost [POM_5V_IN] reading) has at most 15 digits, the power
    returned is a whole number, not negative and below 10^15: a value
    that [float] represents exactly. *)
Theorem parse_power_whole_number line cur :
  first_reading (lit "VDD_IN") line cur
  \/ (no_reading (lit "VDD_IN") line
      /\ first_reading (lit "POM_5V_IN") line cur) ->
  (length cur <= 15)%nat ->
  exists n : Z,
    (0 <= n < 10 ^ 15)%Z /\ _parse_power line = Some (inject_Z n).
Proof.
  intros H Hlen.
  assert (Hp : _parse_power line = Some (float_of_digits cur)
               /\ forallb is_digit cur = true).
  { destruct H as [H|[Hno H]];
      pose proof (first_reading_digits _ _ _ H) as [_ Hd];
      destruct (re_search_field_first _ _ _ H) as [g2 E];
      unfold _parse_power.
    - rewrite E. split; [reflexivity|exact Hd].
    - rewrite (re_search_field_none _ _ Hno), E. split; [reflexivity|exact Hd]. }
  destruct Hp as [Hp Hd]. rewrite Hp. unfold float_of_digits.
  pose proof (decimal_nonneg cur 0%Z Hd (Z.le_refl 0)) as Hlo.
  pose proof (decimal_below cur 0%Z Hd (Z.le_refl 0)) as Hhi.
  set (n := fold_left (fun acc c => 10 * acc + digit_value c)%Z cur 0%Z) in *.
  exists n. split; [|reflexivity]. split; [exact Hlo|].
  eapply Z.lt_le_trans; [exact Hhi|]. rewrite Z.mul_1_l.
  apply Z.pow_le_mono_r; lia.
Qed.

Lemma parse_power_whole_number_witness :
  let line := lit "VDD_IN 2594/2601 VDD_CPU_GPU_CV 307/307" in
  exists n : Z,
    (0 <= n < 10 ^ 15)%Z /\ _parse_power line = Some (inject_Z n).
Proof.
  intros line.
  apply (parse_power_whole_number line (lit "2594")).
  - left. exists [], line, (lit "2601"). split; [reflexivity|]. split.
    + exists (lit " "), (lit " VDD_CPU_GPU_CV 307/307").
      repeat split; try reflexivity; discriminate.
    + intros pre' s' cur' avg' _ Hlt. simpl in Hlt. lia.
  - simpl. lia.
Defined.

(** ** The order of the buffer *)

Lemma Sorted_tl {A} (R : A -> A -> Prop) l : Sorted R l -> Sorted R (tl l).
Proof. intros H. destruct H; [constructor|assumption]. Qed.

Lemma Sorted_app_l {A} (R : A -> A -> Prop) x : forall y,
  Sorted R (x ++ y) -> Sorted R x.
Proof.
  induction x as [|a x IH]; intros y H; [constructor|].
  simpl in H. inversion H as [|? ? Hs Hd]; subst.
  constructor; [exact (IH y Hs)|].
  destruct x; [constructor|]. inversion Hd; subst. constructor. assumption.
Qed.

Lemma Sorted_app_r {A} (R : A -> A -> Prop) x : forall y,
  Sorted R (x ++ y) -> Sorted R y.
Proof.
  induction x as [|a x IH]; intros y H; [exact H|].
  simpl in H. inversion H; subst. apply IH. assumption.
Qed.

Lemma deque_append_all_sorted {A} (R : A -> A -> Prop) cap xs : forall d,
  Sorted R (d ++ xs) -> Sorted R (fold_left (deque_append cap) xs d).
Proof.
  induction xs as [|x xs IH]; intros d H.
  - rewrite app_nil_r in H. exact H.
  - cbn [fold_left]. apply IH. unfold deque_append.
    replace (d ++ x :: xs) with ((d ++ [x]) ++ xs) in H
      by (rewrite <- app_assoc; reflexivity).
    destruct (cap <? length (d ++ [x]))%nat; [|exact H].
    apply Sorted_tl in H. destruct d; exact H.
Qed.

(** X2. If the samples in the buffer followed by the samples to append
    never go back in time, the buffer is in time order after the appends,
    evictions included. *)
Theorem append_keeps_time_order self xs :
  time_ordered (samples self ++ xs) ->
  time_ordered (samples (fold_left append_sample xs self)).
Proof.
  intros H. rewrite samples_append_all.
  apply deque_append_all_sorted. exact H.
Qed.

Lemma append_keeps_time_order_witness :
  let self := with_samples [(1, 900); (1, 950)] in
  let xs := [(2, 1000); (5, 700)] in
  time_ordered (samples (fold_left append_sample xs self)).
Proof.
  intros self xs. apply (append_keeps_time_order self xs).
  repeat constructor; unfold Qle; simpl; lia.
Defined.

(** ** Windows on an ordered buffer *)

Lemma Qle_bool_false x y : Qle_bool x y = false -> y < x.
Proof.
  intros H. apply Qnot_le_lt. intros Hle.
  apply Qle_bool_iff in Hle. congruence.
Qed.

(** In a time-ordered sequence the samples of a window are one run:
    before it everything is earlier than the window, after it everything
    is later. *)
Lemma window_segment t_start t_end l :
  time_ordered l ->
  exists pre post,
    l = pre
        ++ filter (fun s => Qle_bool t_start (fst s) && Qle_bool (fst s) t_end) l
        ++ post
    /\ Forall (fun s => fst s < t_start) pre
    /\ Forall (fun s => t_end < fst s) post.
Proof.
  intros Hs. apply Sorted_StronglySorted in Hs;
    [|intros a b c Hab Hbc; apply Qle_trans with (fst b); assumption].
  induction Hs as [|a l Hs IH Hall]; [exists [], []; repeat split; constructor|].
  destruct IH as (pre & post & E & Hpre & Hpost).
  rewrite Forall_forall in Hall. cbn [filter].
  destruct (Qle_bool t_start (fst a)) eqn:E1; cbn [andb].
  - apply Qle_bool_iff in E1.
    assert (pre = []) as ->.
    { destruct pre as [|b pre]; [reflexivity|]. exfalso.
      assert (Hb : In b l) by (rewrite E; left; reflexivity).
      apply Hall in Hb. inversion Hpre; subst. lra. }
    destruct (Qle_bool (fst a) t_end) eqn:E2.
    + exists [], post. cbn [app] in *. rewrite <- E.
      repeat split; [constructor|exact Hpost].
    + apply Qle_bool_false in E2.
      assert (Hlate : Forall (fun s => t_end < fst s) l).
      { apply Forall_forall. intros x Hx. apply Hall in Hx. lra. }
      assert (Hnone : filter (fun s => Qle_bool t_start (fst s)
                                       && Qle_bool (fst s) t_end) l = []).
      { clear - Hlate. induction Hlate as [|x l Hx _ IH]; [reflexivity|].
        cbn [filter]. destruct (Qle_bool (fst x) t_end) eqn:Ex.
        - apply Qle_bool_iff in Ex. lra.
        - rewrite andb_false_r. exact IH. }
      exists [], (a :: l). rewrite Hnone. cbn [app].
      repeat split; constructor; assumption.
  - apply Qle_bool_false in E1.
    exists (a :: pre), post. cbn [app]. rewrite <- E.
    repeat split; [constructor; assumption|exact Hpost].
Qed.

(** X3. On a time-ordered buffer a window query returns one contiguous
    run of the buffer: the buffer is samples earlier than [t_start], then
    the samples returned, then samples later than [t_end]. *)
Theorem get_samples_contiguous self t_start t_end :
  time_ordered (samples self) ->
  exists pre post,
    samples self = pre ++ get_samples self (Some t_start) (Some t_end) ++ post
    /\ Forall (fun s => fst s < t_start) pre
    /\ Forall (fun s => t_end < fst s) post.
Proof.
  intros Hs. rewrite get_samples_filter. apply window_segment. exact Hs.
Qed.

Lemma get_samples_contiguous_witness :
  let self := with_samples [(0, 700); (1, 1000); (2, 2000); (10, 900)] in
  exists pre post,
    samples self = pre ++ get_samples self (Some 1) (Some 2) ++ post
    /\ Forall (fun s => fst s < 1) pre
    /\ Forall (fun s => 2 < fst s) post.
Proof.
  intros self. apply (get_samples_contiguous self 1 2).
  repeat constructor; unfold Qle; simpl; lia.
Defined.

Lemma trapezoid_sum_app_r idle_mw x : forall y,
  time_ordered (x ++ y) ->
  trapezoid_sum idle_mw y <= trapezoid_sum idle_mw (x ++ y).
Proof.
  induction x as [|a x IH]; intros y Hs; [cbn [app]; lra|].
  specialize (IH y (Sorted_tl _ _ Hs)).
  cbn [app] in *. destruct (x ++ y) as [|b r] eqn:E.
  - destruct x; [|discriminate]. cbn [app] in E. subst y. simpl. lra.
  - change (trapezoid_sum idle_mw y
            <= trapezoid idle_mw a b + trapezoid_sum idle_mw (b :: r)).
    inversion Hs as [|? ? _ Hd]; subst. inversion Hd; subst.
    pose proof (trapezoid_nonneg idle_mw a b ltac:(assumption)). lra.
Qed.

Lemma trapezoid_sum_app_l idle_mw x : forall y,
  time_ordered (x ++ y) ->
  trapezoid_sum idle_mw x <= trapezoid_sum idle_mw (x ++ y).
Proof.
  induction x as [|a x IH]; intros y Hs.
  - apply trapezoid_sum_nonneg. exact Hs.
  - specialize (IH y (Sorted_tl _ _ Hs)).
    destruct x as [|b x].
    + apply (trapezoid_sum_nonneg idle_mw ([a] ++ y)). exact Hs.
    + change (trapezoid idle_mw a b + trapezoid_sum idle_mw (b :: x)
              <= trapezoid idle_mw a b + trapezoid_sum idle_mw ((b :: x) ++ y)).
      lra.
Qed.

Lemma filter_narrow {A} (f g : A -> bool) l :
  (forall x, f x = true -> g x = true) ->
  filter f (filter g l) = filter f l.
Proof.
  intros H. induction l as [|a l IH]; [reflexivity|]. cbn [filter].
  destruct (g a) eqn:G; cbn [filter].
  - rewrite IH. reflexivity.
  - destruct (f a) eqn:F; [|exact IH]. apply H in F. congruence.
Qed.

(** X4. On a time-ordered buffer, a window that selects two or more
    samples never yields more energy than a window that contains it. *)
Theorem integrate_energy_wider_window
    self t_start t_end t_start' t_end' idle_mw :
  time_ordered (samples self) ->
  t_start <= t_start' -> t_end' <= t_end ->
  (2 <= length (get_samples self (Some t_start') (Some t_end')))%nat ->
  exists e e',
    integrate_energy self t_start t_end idle_mw = (Py.Return e, [])
    /\ integrate_energy self t_start' t_end' idle_mw = (Py.Return e', [])
    /\ e' <= e.
Proof.
  intros Hs H1 H2 Hlen.
  pose proof (get_samples_time_ordered self t_start t_end Hs) as Hout.
  assert (Hin : get_samples self (Some t_start') (Some t_end')
                = filter (fun s => Qle_bool t_start' (fst s)
                                   && Qle_bool (fst s) t_end')
                    (get_samples self (Some t_start) (Some t_end))).
  { rewrite !get_samples_filter. symmetry. apply filter_narrow.
    intros x Hx. apply andb_true_iff in Hx. destruct Hx as [Ha Hb].
    apply Qle_bool_iff in Ha, Hb. apply andb_true_iff.
    split; apply Qle_bool_iff; lra. }
  destruct (window_segment t_start' t_end' _ Hout) as (pre & post & E & _ & _).
  rewrite <- Hin in E.
  assert (Hlen' : (2 <= length (get_samples self (Some t_start) (Some t_end)))%nat).
  { rewrite E, !length_app. unfold Sample in *. lia. }
  destruct (integrate_energy_many self t_start t_end idle_mw Hlen')
    as (e & He & Qe).
  destruct (integrate_energy_many self t_start' t_end' idle_mw Hlen)
    as (e' & He' & Qe').
  exists e, e'. split; [exact He|]. split; [exact He'|].
  rewrite Qe, Qe'. rewrite E in Hout |- *.
  apply Qle_trans
    with (trapezoid_sum idle_mw
            (get_samples self (Some t_start') (Some t_end') ++ post)).
  - apply trapezoid_sum_app_l. exact (Sorted_app_r _ _ _ Hout).
  - apply trapezoid_sum_app_r. exact Hout.
Qed.

Lemma integrate_energy_wider_window_witness :
  let self := with_samples [(0, 700); (1, 1000); (2, 2000); (10, 900)] in
  exists e e',
    integrate_energy self 0 10 100 = (Py.Return e, [])
    /\ integrate_energy self (1 # 2) 3 100 = (Py.Return e', [])
    /\ e' <= e.
Proof.
  intros self.
  apply (integrate_energy_wider_window self 0 10 (1 # 2) 3 100).
  - repeat constructor; unfold Qle; simpl; lia.
  - unfold Qle; simpl; lia.
  - unfold Qle; simpl; lia.
  - simpl; lia.
Defined.

(** ** Idle calibration: isolation *)

Lemma fold_append_set_samples xs : forall m,
  fold_left append_sample xs m
  = set_samples m (fold_left (deque_append maxlen) xs (samples m)).
Proof.
  induction xs as [|x xs IH]; intros m; [destruct m; reflexivity|].
  cbn [fold_left]. rewrite IH. destruct m; reflexivity.
Qed.

Lemma measure_idle_state self duration_sec env :
  running self = true ->
  fst (measure_idle self duration_sec env)
  = set_samples self (lastn maxlen (appended env)).
Proof.
  intros R. unfold measure_idle. rewrite R. cbn [negb fst].
  rewrite fold_append_set_samples. cbn [samples clear_samples set_samples].
  rewrite deque_append_all by apply Nat.le_0_l.
  destruct self; reflexivity.
Qed.

(** X9. A calibration starts from an empty buffer: on running monitors
    neither its outcome nor the buffer it leaves depends on what was
    buffered before the call, and the buffer it leaves holds the most
    recent samples appended during the call and nothing older. *)
Theorem measure_idle_forgets_buffer self self' duration_sec env :
  running self = true -> running self' = true ->
  snd (measure_idle self duration_sec env)
  = snd (measure_idle self' duration_sec env)
  /\ samples (fst (measure_idle self duration_sec env))
     = lastn maxlen (appended env)
  /\ samples (fst (measure_idle self' duration_sec env))
     = lastn maxlen (appended env).
Proof.
  intros R R'.
  rewrite (measure_idle_state _ _ _ R), (measure_idle_state _ _ _ R').
  split; [|split; reflexivity].
  unfold measure_idle. rewrite R, R'. cbn [negb snd].
  rewrite !measure_idle_query. reflexivity.
Qed.

Lemma measure_idle_forgets_buffer_witness :
  let self := set_running (with_samples [(0, 9000); (12, 8000)]) true in
  let self' := set_running (init 100) true in
  let env := {| time_start := 10; time_end := 20;
                appended := [(11, 1000); (15, 2000)] |} in
  snd (measure_idle self 10 env) = snd (measure_idle self' 10 env)
  /\ samples (fst (measure_idle self 10 env)) = lastn maxlen (appended env)
  /\ samples (fst (measure_idle self' 10 env)) = lastn maxlen (appended env).
Proof.
  intros self self' env.
  apply (measure_idle_forgets_buffer self self' 10 env); reflexivity.
Defined.

(** ** Stopping a running monitor *)



(** ** Stripping and parsing *)

Lemma space_not_digit c : is_space c = true -> is_digit c = false.
Proof.
  intros H. destruct (is_digit c) eqn:D; [|reflexivity].
  apply digit_not_space in D. congruence.
Qed.

Lemma lstrip_split s :
  exists ws, s = ws ++ lstrip s /\ forallb is_space ws = true.
Proof.
  induction s as [|c s (ws & E & Hws)]; [exists []; split; reflexivity|].
  cbn [lstrip]. destruct (is_space c) eqn:C.
  - exists (c :: ws). cbn [app forallb]. rewrite C, Hws, <- E.
    split; reflexivity.
  - exists []. split; reflexivity.
Qed.

Lemma rstrip_split s :
  exists ws, s = rstrip s ++ ws /\ forallb is_space ws = true.
Proof.
  destruct (lstrip_split (rev s)) as (ws & E & Hws).
  exists (rev ws). split.
  - unfold rstrip. rewrite <- rev_app_distr, <- E, rev_involutive. reflexivity.
  - apply forallb_forall. intros x Hx. apply in_rev in Hx.
    rewrite forallb_forall in Hws. exact (Hws x Hx).
Qed.

Section Strip.
Variable name : text.
Hypothesis name_not_empty : name <> [].
Hypothesis name_no_space : forallb (fun c => negb (is_space c)) name = true.

Lemma re_literal_app p : forall t r ws,
  re_literal p t = Some r -> re_literal p (t ++ ws) = Some (r ++ ws).
Proof.
  intros t r ws H. apply re_literal_spec in H. apply re_literal_spec.
  rewrite H, app_assoc. reflexivity.
Qed.

Lemma re_literal_app_none p : forall t ws,
  forallb (fun c => negb (is_space c)) p = true ->
  forallb is_space ws = true ->
  re_literal p t = None -> re_literal p (t ++ ws) = None.
Proof.
  induction p as [|c p IH]; intros t ws Hp Hws H; [discriminate|].
  cbn [forallb] in Hp. apply andb_true_iff in Hp. destruct Hp as [Hc Hp].
  destruct t as [|d t]; cbn [app re_literal] in *.
  - destruct ws as [|w ws]; [reflexivity|].
    cbn [forallb] in Hws. apply andb_true_iff in Hws. destruct Hws as [Hw _].
    destruct (Ascii.eqb_spec c w) as [->|_]; [|reflexivity].
    rewrite Hw in Hc. discriminate.
  - destruct (Ascii.eqb c d); [|reflexivity]. apply IH; assumption.
Qed.

Lemma re_span_all f ws : forallb f ws = true -> re_span f ws = (ws, []).
Proof.
  induction ws as [|w ws IH]; intros H; [reflexivity|].
  cbn [forallb] in H. apply andb_true_iff in H. destruct H as [Hw H].
  cbn [re_span]. rewrite Hw, (IH H). reflexivity.
Qed.

(** A run of the class goes on into a suffix of the class when it
    reaches it, and is not changed by it otherwise. *)
Lemma re_span_app_same f r : forall ws,
  forallb f ws = true ->
  re_span f (r ++ ws)
  = match re_span f r with
    | (a, []) => (a ++ ws, [])
    | (a, b) => (a, b ++ ws)
    end.
Proof.
  induction r as [|c r IH]; intros ws H.
  - cbn [app re_span]. apply re_span_all. exact H.
  - cbn [app re_span]. destruct (f c) eqn:C; [|reflexivity].
    rewrite (IH ws H). destruct (re_span f r) as [a [|b0 b]]; reflexivity.
Qed.

(** A run of the class is not changed by a suffix outside the class. *)
Lemma re_span_app_other f r : forall ws,
  forallb (fun c => negb (f c)) ws = true ->
  re_span f (r ++ ws) = (fst (re_span f r), snd (re_span f r) ++ ws).
Proof.
  induction r as [|c r IH]; intros ws H.
  - cbn [app re_span fst snd]. destruct ws as [|w ws]; [reflexivity|].
    cbn [forallb] in H. apply andb_true_iff in H. destruct H as [Hw _].
    cbn [re_span]. destruct (f w); [discriminate|reflexivity].
  - cbn [app re_span]. destruct (f c) eqn:C; [|reflexivity].
    rewrite (IH ws H). destruct (re_span f r); reflexivity.
Qed.

Lemma spaces_no_digits ws :
  forallb is_space ws = true ->
  forallb (fun c => negb (is_digit c)) ws = true.
Proof.
  intros H. apply forallb_forall. intros x Hx.
  rewrite forallb_forall in H. rewrite (space_not_digit x (H x Hx)).
  reflexivity.
Qed.

Lemma re_plus_digit_app r ws :
  forallb is_space ws = true ->
  re_plus is_digit (r ++ ws)
  = match re_plus is_digit r with
    | Some (g, rest) => Some (g, rest ++ ws)
    | None => None
    end.
Proof.
  intros H. unfold re_plus.
  rewrite (re_span_app_other is_digit r ws (spaces_no_digits ws H)).
  destruct (re_span is_digit r) as [[|c g] rest]; reflexivity.
Qed.

(** Blanks after the text change nothing to a match at its head. *)
Lemma re_match_field_app_spaces t ws :
  forallb is_space ws = true ->
  re_match_field name (t ++ ws) = re_match_field name t.
Proof.
  intros Hws. unfold re_match_field.
  destruct (re_literal name t) as [s1|] eqn:L1;
    [|rewrite (re_literal_app_none name t ws name_no_space Hws L1); reflexivity].
  rewrite (re_literal_app name t s1 ws L1).
  change (re_plus is_space (s1 ++ ws))
    with (match re_span is_space (s1 ++ ws) with
          | ([], _) => None
          | (r, rest) => Some (r, rest)
          end).
  change (re_plus is_space s1)
    with (match re_span is_space s1 with
          | ([], _) => None
          | (r, rest) => Some (r, rest)
          end).
  rewrite (re_span_app_same is_space s1 ws Hws).
  destruct (re_span is_space s1) as [a [|c b]].
  - destruct a as [|a0 a]; cbn [app].
    + destruct ws; reflexivity.
    + reflexivity.
  - destruct a as [|a0 a]; [reflexivity|].
    rewrite (re_plus_digit_app (c :: b) ws Hws).
    destruct (re_plus is_digit (c :: b)) as [[g1 s3]|]; [|reflexivity].
    destruct (re_literal (lit "/") s3) as [s4|] eqn:L2.
    + rewrite (re_literal_app _ _ _ ws L2), (re_plus_digit_app s4 ws Hws).
      destruct (re_plus is_digit s4) as [[g2 s5]|]; reflexivity.
    + rewrite (re_literal_app_none (lit "/") s3 ws eq_refl Hws L2). reflexivity.
Qed.

Lemma re_match_field_space c s :
  is_space c = true -> re_match_field name (c :: s) = None.
Proof.
  intros C. unfold re_match_field.
  destruct name as [|n0 name']; [contradiction|].
  cbn [forallb] in name_no_space.
  apply andb_true_iff in name_no_space. destruct name_no_space as [Hn _].
  cbn [re_literal]. destruct (Ascii.eqb_spec n0 c) as [->|_]; [|reflexivity].
  rewrite C in Hn. discriminate.
Qed.

Lemma re_match_field_nil : re_match_field name [] = None.
Proof.
  unfold re_match_field. destruct name; [contradiction|reflexivity].
Qed.

Lemma re_search_field_spaces_app ws : forall s,
  forallb is_space ws = true ->
  re_search_field name (ws ++ s) = re_search_field name s.
Proof.
  induction ws as [|w ws IH]; intros s H; [reflexivity|].
  cbn [forallb] in H. apply andb_true_iff in H. destruct H as [Hw H].
  cbn [app re_search_field]. rewrite (re_match_field_space w _ Hw).
  apply IH. exact H.
Qed.

Lemma re_search_field_app_spaces ws : forall s,
  forallb is_space ws = true ->
  re_search_field name (s ++ ws) = re_search_field name s.
Proof.
  intros s H. induction s as [|a s IH].
  - cbn [app]. rewrite <- (app_nil_r ws) at 1.
    rewrite (re_search_field_spaces_app ws [] H). reflexivity.
  - cbn [app re_search_field].
    change (a :: s ++ ws) with ((a :: s) ++ ws).
    rewrite (re_match_field_app_spaces (a :: s) ws H), IH. reflexivity.
Qed.

Lemma re_search_field_strip line :
  re_search_field name (strip line) = re_search_field name line.
Proof.
  destruct (lstrip_split line) as (ws1 & E1 & H1).
  destruct (rstrip_split (lstrip line)) as (ws2 & E2 & H2).
  pose proof (re_search_field_spaces_app ws1 (lstrip line) H1) as A.
  pose proof (re_search_field_app_spaces ws2 (rstrip (lstrip line)) H2) as B.
  rewrite <- E1 in A. rewrite <- E2 in B.
  unfold strip. rewrite A, B. reflexivity.
Qed.

End Strip.

Lemma parse_power_of_strip line : _parse_power (strip line) = _parse_power line.
Proof.
  unfold _parse_power.
  rewrite (re_search_field_strip (lit "VDD_IN")) by (discriminate || reflexivity).
  rewrite (re_search_field_strip (lit "POM_5V_IN")) by (discriminate || reflexivity).
  reflexivity.
Qed.

(** X12. Blanks before and after a line never change what
    [_parse_power] returns; in particular stripping the line, as the
    reader thread does before it parses, changes nothing. *)
Theorem parse_power_strip line :
  _parse_power (strip line) = _parse_power line
  /\ forall ws1 ws2,
       forallb is_space ws1 = true -> forallb is_space ws2 = true ->
       _parse_power (ws1 ++ line ++ ws2) = _parse_power line.
Proof.
  split; [apply parse_power_of_strip|].
  intros ws1 ws2 H1 H2. unfold _parse_power.
  rewrite (re_search_field_spaces_app (lit "VDD_IN")),
          (re_search_field_spaces_app (lit "POM_5V_IN"))
    by (discriminate || reflexivity || exact H1).
  rewrite (re_search_field_app_spaces (lit "VDD_IN")),
          (re_search_field_app_spaces (lit "POM_5V_IN"))
    by (discriminate || reflexivity || exact H2).
  reflexivity.
Qed.

Lemma parse_power_strip_witness :
  _parse_power (lit "   VDD_IN 2594/2594 VDD_SOC 922/922  ")
  = _parse_power (lit "VDD_IN 2594/2594 VDD_SOC 922/922").
Proof.
  exact (proj2 (parse_power_strip (lit "VDD_IN 2594/2594 VDD_SOC 922/922"))
           (lit "   ") (lit "  ") eq_refl eq_refl).
Defined.

(** ** The reader thread *)

Lemma append_sample_fields self s :
  running (append_sample self s) = running self
  /\ process (append_sample self s) = process self
  /\ thread (append_sample self s) = thread self
  /\ interval_ms (append_sample self s) = interval_ms self.
Proof. repeat split. Qed.

(** While the flag stays set, the reader thread appends the readings of
    its reads, one after the other. *)
Lemma reader_thread_appends reads : forall self,
  running self = true ->
  fst (fst (_reader_thread self reads))
  = fold_left append_sample (readings reads) self.
Proof.
  induction reads as [|[r ts] reads IH]; intros self R;
    cbn [_reader_thread readings]; rewrite R; cbn [negb]; [reflexivity|].
  destruct r as [line| |msg]; try reflexivity.
  rewrite parse_power_of_strip.
  destruct (_parse_power line) as [p|]; [|exact (IH self R)].
  cbn [fold_left]. apply IH. exact R.
Qed.

(** X13. While the running flag stays set, the reader thread leaves in
    the buffer the most recent 100,000 of: the samples buffered before,
    followed by one sample per line that parses, in the order read and
    up to the first end of stream or exception.  It touches no other
    field of the monitor. *)
Theorem reader_thread_buffer self reads :
  running self = true ->
  (length (samples self) <= maxlen)%nat ->
  let after := fst (fst (_reader_thread self reads)) in
  samples after = lastn maxlen (samples self ++ readings reads)
  /\ running after = true
  /\ process after = process self
  /\ thread after = thread self
  /\ interval_ms after = interval_ms self.
Proof.
  intros R Hb after. unfold after. rewrite (reader_thread_appends reads self R).
  destruct (append_all_fields (readings reads) self) as (A & B & C & D).
  rewrite A, B, C, D, samples_append_all, deque_append_all by exact Hb.
  repeat split. exact R.
Qed.

Lemma reader_thread_buffer_witness :
  let self := set_running (with_samples [(1, 900)]) true in
  let reads :=
    [(ReadLine (lit "RAM 2156/7471MB VDD_IN 2594/2594"), 2);
     (ReadLine (lit "RAM 2156/7471MB CPU@38.5C"), 3);
     (ReadLine (lit "  POM_5V_IN 1830/1790  "), 4);
     (ReadEof, 5);
     (ReadLine (lit "VDD_IN 1/1"), 6)] in
  samples (fst (fst (_reader_thread self reads)))
  = [(1, 900); (2, 2594); (4, 1830)].
Proof.
  intros self reads.
  assert (Hb : (length (samples self) <= maxlen)%nat)
    by (apply Nat.leb_le; vm_compute; reflexivity).
  destruct (reader_thread_buffer self reads eq_refl Hb) as (E & _).
  rewrite E. vm_compute. reflexivity.
Defined.

(** X14. While the running flag stays set, the reader thread stays in
    its loop as long as lines arrive; it leaves the loop silently at the
    end of the stream and with one printed line at an exception, and in
    both cases ignores whatever would follow. *)
Theorem reader_thread_exit self lines :
  running self = true ->
  forallb is_line lines = true ->
  snd (fst (_reader_thread self lines)) = Reading
  /\ snd (_reader_thread self lines) = []
  /\ (forall ts rest,
         _reader_thread self (lines ++ (ReadEof, ts) :: rest)
         = (fst (fst (_reader_thread self lines)), Exited, []))
  /\ (forall msg ts rest,
         _reader_thread self (lines ++ (ReadError msg, ts) :: rest)
         = (fst (fst (_reader_thread self lines)), Exited,
            [Io.PrintErrorReading msg])).
Proof.
  revert self. induction lines as [|[r ts] lines IH]; intros self R Hl.
  - cbn [_reader_thread app]. rewrite R. repeat split.
  - cbn [forallb] in Hl. apply andb_true_iff in Hl. destruct Hl as [Hr Hl].
    destruct r as [line| |msg]; try discriminate Hr.
    cbn [_reader_thread app]. rewrite R. cbn [negb].
    destruct (_parse_power (strip line)) as [p|]; apply IH; assumption.
Qed.

Lemma reader_thread_exit_witness :
  let self := set_running (init 100) true in
  let lines := [(ReadLine (lit "VDD_IN 2594/2594"), 2);
                (ReadLine (lit "CPU@38.5C"), 3)] in
  _reader_thread self (lines ++ (ReadError "closed", 4) :: [(ReadLine (lit "VDD_IN 1/1"), 5)])
  = (fst (fst (_reader_thread self lines)), Exited,
     [Io.PrintErrorReading "closed"]).
Proof.
  intros self lines.
  destruct (reader_thread_exit self lines eq_refl eq_refl) as (_ & _ & _ & H).
  exact (H "closed"%string 4 [(ReadLine (lit "VDD_IN 1/1"), 5)]).
Defined.

(** ** Starting, and the life of a session *)

Lemma running_after_spawn self env p :
  running self = false -> popen env = Spawned p ->
  running (fst (start self env)) = true
  /\ process (fst (start self env)) = Some p
  /\ thread (fst (start self env)) = Some (reader env).
Proof.
  intros R Hp. unfold start. rewrite R, Hp.
  destruct (progress env); cbn [fst];
    try match goal with
        | |- context [fold_left append_sample ?xs ?m] =>
            destruct (append_all_fields xs m) as (A & B & C & _);
            rewrite A, B, C
        end;
    repeat split.
Qed.

(** X16. [start()] on a running monitor only prints that the monitor is
    already running: the monitor is left as it is and no subprocess is
    spawned.  So a second [start()] after one that succeeded spawns
    nothing. *)
Theorem start_idempotent :
  (forall self env,
      running self = true ->
      start self env = (self, (Py.Return tt, [Io.PrintAlreadyRunning])))
  /\ (forall self env env' p,
      running self = false -> popen env = Spawned p ->
      start (fst (start self env)) env'
      = (fst (start self env), (Py.Return tt, [Io.PrintAlreadyRunning]))).
Proof.
  assert (H : forall self env,
             running self = true ->
             start self env = (self, (Py.Return tt, [Io.PrintAlreadyRunning]))).
  { intros self env R. unfold start. rewrite R. reflexivity. }
  split; [exact H|].
  intros self env env' p R Hp. apply H.
  exact (proj1 (running_after_spawn self env p R Hp)).
Qed.

Lemma start_idempotent_witness :
  let env := {| popen := Spawned {| Py.pid := 4711 |};
                reader := {| Py.ident := 1 |};
                progress := Completed;
                first_samples := [(0, 1000)] |} in
  let env' := {| popen := Spawned {| Py.pid := 4712 |};
                 reader := {| Py.ident := 2 |};
                 progress := Completed;
                 first_samples := [(1, 2000)] |} in
  start (fst (start (init 100) env)) env'
  = (fst (start (init 100) env), (Py.Return tt, [Io.PrintAlreadyRunning])).
Proof.
  intros env env'.
  exact (proj2 start_idempotent (init 100) env env' {| Py.pid := 4711 |}
           eq_refl eq_refl).
Defined.



(** X18. A session leaves nothing behind but samples: on a monitor that
    is not running and holds no handles, a [start()] that runs to its
    end followed by [stop()] gives back the monitor it started from, its
    buffer extended by the samples the reader thread appended during the
    two calls, and the subprocess that was spawned is the one asked to
    terminate. *)
Theorem start_then_stop self env senv p :
  running self = false -> process self = None -> thread self = None ->
  (length (samples self) <= maxlen)%nat ->
  popen env = Spawned p -> progress env = Completed ->
  fst (stop (fst (start self env)) senv)
  = set_samples self
      (lastn maxlen (samples self ++ first_samples env ++ late_samples senv))
  /\ Py.trace (snd (stop (fst (start self env)) senv))
     = [Py.Terminate p; Py.Wait p 2]
       ++ (if timeout_expired senv then [Py.Kill p] else [])
       ++ [Py.Join (reader env) 2; Py.PrintMonitorStopped].
Proof.
  intros R Hp Ht Hb Hs Hg. unfold start. rewrite R, Hs, Hg. cbn [fst].
  rewrite fold_append_set_samples. unfold stop.
  cbn [running process thread samples set_samples set_thread set_running
       set_process negb fst snd].
  rewrite fold_append_set_samples.
  cbn [samples set_samples set_thread set_running set_process].
  rewrite <- fold_left_app, !deque_append_all by exact Hb.
  destruct self as [i pr th r d]. cbn in R, Hp, Ht. subst.
  destruct (timeout_expired senv); split; reflexivity.
Qed.

Lemma start_then_stop_witness :
  let env := {| popen := Spawned {| Py.pid := 4711 |};
                reader := {| Py.ident := 1 |};
                progress := Completed;
                first_samples := [(0, 1000); (1, 1100)] |} in
  let senv := {| timeout_expired := true; late_samples := [(2, 1200)] |} in
  fst (stop (fst (start (init 100) env)) senv)
  = set_samples (init 100)
      (lastn maxlen ([] ++ [(0, 1000); (1, 1100)] ++ [(2, 1200)]))
  /\ Py.trace (snd (stop (fst (start (init 100) env)) senv))
     = [Py.Terminate {| Py.pid := 4711 |}; Py.Wait {| Py.pid := 4711 |} 2]
       ++ [Py.Kill {| Py.pid := 4711 |}]
       ++ [Py.Join {| Py.ident := 1 |} 2; Py.PrintMonitorStopped].
Proof.
  intros env senv.
  apply (start_then_stop (init 100) env senv {| Py.pid := 4711 |});
    try reflexivity.
  apply Nat.le_0_l.
Defined.



(** ** One benchmark task *)


Lemma integrate_energy_returns_nonneg self t_start t_end idle_mw :
  time_ordered (samples self) ->
  exists e out,
    integrate_energy self t_start t_end idle_mw = (Py.Return e, out)
    /\ 0 <= e.
Proof.
  intros Hs.
  pose proof (get_samples_time_ordered self t_start t_end Hs) as Hsel.
  destruct (get_samples self (Some t_start) (Some t_end)) as [|s [|s' l]] eqn:E.
  - rewrite (integrate_energy_none _ _ _ _ E). eexists _, _.
    split; [reflexivity|]. lra.
  - rewrite (integrate_energy_one _ _ _ _ _ E). eexists _, _.
    split; [reflexivity|]. apply Q.le_max_l.
  - destruct (integrate_energy_many self t_start t_end idle_mw) as (e & He & Qe);
      [rewrite E; simpl; lia|].
    exists e, []. split; [exact He|]. rewrite Qe, E.
    apply trapezoid_sum_nonneg. exact Hsel.
Qed.




Lemma Sorted_skipn {A} (R : A -> A -> Prop) n : forall l,
  Sorted R l -> Sorted R (skipn n l).
Proof.
  induction n as [|n IH]; intros l H; [exact H|].
  destruct l as [|a l]; [constructor|]. cbn [skipn]. apply IH.
  inversion H; assumption.
Qed.

(** X21. When the inference returns and the samples appended during the
    task are in time order, [run_single_task] returns a record that
    carries the task's identity and the inference's text and token
    counts, a latency of [(t_end - t_start) * 1000] milliseconds and an
    energy that is not negative.  When no retained sample falls between
    the two clock readings, as on a monitor that is not running, the
    task is not failed: the recorded energy is 0. *)
Theorem run_single_task_record
    model_id task monitor idle_power env output_text prompt_tokens completion_tokens :
  completion env = Py.Return (output_text, prompt_tokens, completion_tokens) ->
  time_ordered (run_appended env) ->
  exists r,
    Io.value (snd (run_single_task model_id task monitor idle_power env))
    = Py.Return r
    /\ InferenceResult.question_id r = PromptTask.question_id task
    /\ InferenceResult.model_id r = model_id
    /\ InferenceResult.category r = PromptTask.category task
    /\ InferenceResult.level r = PromptTask.level task
    /\ InferenceResult.output_text r = output_text
    /\ InferenceResult.prompt_tokens r = prompt_tokens
    /\ InferenceResult.completion_tokens r = completion_tokens
    /\ InferenceResult.latency_ms r = (run_end env - run_start env) * 1000
    /\ 0 <= InferenceResult.energy_joule r
    /\ (filter (fun s => Qle_bool (run_start env) (fst s)
                         && Qle_bool (fst s) (run_end env))
               (lastn maxlen (run_appended env)) = [] ->
        InferenceResult.energy_joule r = 0).
Proof.
  intros Hc Hs. unfold run_single_task. rewrite Hc. cbn [snd].
  set (m := fold_left append_sample (run_appended env) (clear_samples monitor)).
  assert (Hm : samples m = lastn maxlen (run_appended env)).
  { unfold m. rewrite samples_append_all, deque_append_all by apply Nat.le_0_l.
    reflexivity. }
  assert (Hord : time_ordered (samples m)).
  { rewrite Hm. apply Sorted_skipn. exact Hs. }
  destruct (integrate_energy_returns_nonneg m (run_start env) (run_end env)
              idle_power Hord) as (e & out & He & Hpos).
  assert (Hzero : filter (fun s => Qle_bool (run_start env) (fst s)
                                   && Qle_bool (fst s) (run_end env))
                         (lastn maxlen (run_appended env)) = [] -> e = 0).
  { intros Hnone. rewrite <- Hm, <- get_samples_filter in Hnone.
    rewrite (integrate_energy_none _ _ _ _ Hnone) in He.
    inversion He. reflexivity. }
  rewrite He. cbn. eexists. split; [reflexivity|].
  cbn. repeat split; try reflexivity; assumption.
Qed.

Lemma run_single_task_record_witness :
  let task := {| PromptTask.question_id := 7; PromptTask.category := "math";
                 PromptTask.topic := "algebra"; PromptTask.level := "L1";
                 PromptTask.prompt_text := "2+2?" |} in
  let env := {| run_start := 10; run_end := 12;
                run_appended := [(9, 3000); (10, 4000); (11, 5000); (13, 3000)];
                completion := Py.Return ("4"%string, 5%Z, 1%Z) |} in
  exists r,
    Io.value (snd (run_single_task "gemma-2-2b" task (init 100) 3000 env))
    = Py.Return r
    /\ InferenceResult.latency_ms r = (12 - 10) * 1000
    /\ 0 <= InferenceResult.energy_joule r.
Proof.
  intros task env.
  destruct (run_single_task_record "gemma-2-2b" task (init 100) 3000 env
              "4" 5 1 eq_refl) as (r & H & _ & _ & _ & _ & _ & _ & _ & L & E & _).
  - repeat constructor; unfold Qle; simpl; lia.
  - exists r. exact (conj H (conj L E)).
Defined.
